(** * k8s-deployment-manager: a shallow embedding of [k8s-api-cli.go]

    The program is a small HTTP facade over the Kubernetes API: four
    request handlers (create, update, list, delete) that call a
    [clientset].  Handlers are embedded as computations in a small
    state-and-panic monad over the process state (the package-level
    [deployment] template, the trace of calls sent to the clientset, the
    standard output and the response being written).  The clientset is an
    oracle: every call is answered as a function of the trace so far, so a
    theorem quantified over clientsets covers every behaviour of the
    store, concurrent writers included.  Handlers are first taken one at
    a time ([serve], [Reachable]); the part on overlapping requests cuts
    the create handler into its statements and interleaves two of them
    on the shared template. *)

From Stdlib Require Import ZArith String Ascii List Lia Bool DecimalString.
From stdpp Require Import gmap strings list.
Import ListNotations.

Local Open Scope string_scope.

(** ** Strings

    A Go string is a sequence of bytes; [string] and [ascii] play that
    role.  The only pattern the program compiles is a negated ASCII class
    under [+].  A rune the class excludes is one ASCII byte, and every
    byte of a longer (or invalid) UTF-8 sequence is at least 0x80, hence
    matched by the negated class: matching byte by byte and rune by rune
    select the same bytes, and the embedding works on bytes. *)

Module Regexp.

(** A bracket expression: the listed inclusive ranges, negated or not. *)
Record CharClass := {
  negated : bool;
  ranges : list (ascii * ascii)
}.

(** A compiled pattern of the shape [class+]. *)
Record Regexp := { plus_of : CharClass }.

Definition in_range (r : ascii * ascii) (c : ascii) : bool :=
  (nat_of_ascii (fst r) <=? nat_of_ascii c)%nat
  && (nat_of_ascii c <=? nat_of_ascii (snd r))%nat.

Definition class_matches (cc : CharClass) (c : ascii) : bool :=
  xorb (negated cc) (existsb (fun r => in_range r c) (ranges cc)).

(** Length of the longest prefix of [s] whose bytes all match [cc]. *)
Fixpoint run_length (cc : CharClass) (s : list ascii) : nat :=
  match s with
  | [] => 0
  | c :: s' => if class_matches cc c then S (run_length cc s') else 0
  end.

(** Leftmost match of [cc+] in [s], greedy: (start, end) offsets. *)
Fixpoint find_match (cc : CharClass) (s : list ascii) : option (nat * nat) :=
  match s with
  | [] => None
  | c :: s' =>
      if class_matches cc c then Some (0, S (run_length cc s'))
      else match find_match cc s' with
           | Some (a0, a1) => Some (S a0, S a1)
           | None => None
           end
  end.

(** The replace loop: copy what precedes the match, emit the
    replacement, search again after the match; at the end copy the
    rest.  A match of [class+] is never empty, so each round consumes at
    least one byte and [length src] rounds always suffice. *)
Fixpoint replace_loop (fuel : nat) (cc : CharClass) (src repl : list ascii)
  : list ascii :=
  match fuel with
  | O => src
  | S fuel' =>
      match find_match cc src with
      | None => src
      | Some (a0, a1) =>
          firstn a0 src ++ repl ++ replace_loop fuel' cc (skipn a1 src) repl
      end
  end.

Definition ReplaceAllString (re : Regexp) (src repl : string) : string :=
  string_of_list_ascii
    (replace_loop (String.length src) (plus_of re)
       (list_ascii_of_string src) (list_ascii_of_string repl)).

End Regexp.

(** [regexp.Compile("[^a-zA-Z0-9]+")]: the pattern is a constant and
    compiles, so the [log.Fatal] branch is dead. *)
Definition non_alphanumeric : Regexp.Regexp :=
  {| Regexp.plus_of :=
       {| Regexp.negated := true;
          Regexp.ranges := [("a"%char, "z"%char); ("A"%char, "Z"%char);
                            ("0"%char, "9"%char)] |} |}.

Definition RemoveNonAlphanumericChars (value : string) : string :=
  Regexp.ReplaceAllString non_alphanumeric value "".

(** The specification's wording: a character of [[a-zA-Z0-9]], and the
    string with every other character stripped. *)
Definition is_alnum (c : ascii) : bool :=
  let n := nat_of_ascii c in
  ((97 <=? n) && (n <=? 122) || (65 <=? n) && (n <=? 90)
   || (48 <=? n) && (n <=? 57))%nat.

Definition strip_non_alnum (s : string) : string :=
  string_of_list_ascii (List.filter is_alnum (list_ascii_of_string s)).

Definition only_alnum (s : string) : Prop :=
  Forall (fun c => is_alnum c = true) (list_ascii_of_string s).

(** ** Kubernetes API types

    The fields the program reads or writes, under the names of the Go
    packages.  A pointer field is an [option]; a [map[string]string] is a
    [gmap string string] (the program writes only to the two maps that
    [CreateDeploymentStruct] allocates, so a nil map is never written). *)

Module metav1.

Record ObjectMeta := {
  Name : string;
  Namespace : string;
  ResourceVersion : string;
  Labels : gmap string string
}.

Record LabelSelector := { MatchLabels : gmap string string }.

Inductive DeletionPropagation :=
| DeletePropagationOrphan
| DeletePropagationBackground
| DeletePropagationForeground.

Record DeleteOptions := { PropagationPolicy : option DeletionPropagation }.

(** The zero value, [metav1.ObjectMeta{}]. *)
Definition ObjectMeta_zero : ObjectMeta :=
  {| Name := ""; Namespace := ""; ResourceVersion := ""; Labels := ∅ |}.

End metav1.

Module apiv1.

Inductive Protocol := ProtocolTCP | ProtocolUDP | ProtocolSCTP.

Record ContainerPort := {
  PortName : string;
  PortProtocol : Protocol;
  PortNumber : Z
}.

Record Container := {
  ContainerName : string;
  Image : string;
  Ports : list ContainerPort
}.

Record PodSpec := { Containers : list Container }.

Record PodTemplateSpec := {
  ObjectMeta : metav1.ObjectMeta;
  Spec : PodSpec
}.

Record Namespace := { NamespaceMeta : metav1.ObjectMeta }.

End apiv1.

Module appsv1.

Record DeploymentSpec := {
  Replicas : option Z;
  Selector : option metav1.LabelSelector;
  Template : apiv1.PodTemplateSpec
}.

Record Deployment := {
  ObjectMeta : metav1.ObjectMeta;
  Spec : DeploymentSpec
}.

End appsv1.

Definition int32Ptr (i : Z) : option Z := Some i.

(** Field assignments along the paths the program writes. *)
Definition with_meta (f : metav1.ObjectMeta -> metav1.ObjectMeta)
  (d : appsv1.Deployment) : appsv1.Deployment :=
  {| appsv1.ObjectMeta := f (appsv1.ObjectMeta d); appsv1.Spec := appsv1.Spec d |}.

Definition with_spec (f : appsv1.DeploymentSpec -> appsv1.DeploymentSpec)
  (d : appsv1.Deployment) : appsv1.Deployment :=
  {| appsv1.ObjectMeta := appsv1.ObjectMeta d; appsv1.Spec := f (appsv1.Spec d) |}.

Definition set_Name (v : string) (m : metav1.ObjectMeta) : metav1.ObjectMeta :=
  {| metav1.Name := v; metav1.Namespace := metav1.Namespace m;
     metav1.ResourceVersion := metav1.ResourceVersion m;
     metav1.Labels := metav1.Labels m |}.

Definition set_Namespace (v : string) (m : metav1.ObjectMeta) : metav1.ObjectMeta :=
  {| metav1.Name := metav1.Name m; metav1.Namespace := v;
     metav1.ResourceVersion := metav1.ResourceVersion m;
     metav1.Labels := metav1.Labels m |}.

Definition set_Label (k v : string) (m : metav1.ObjectMeta) : metav1.ObjectMeta :=
  {| metav1.Name := metav1.Name m; metav1.Namespace := metav1.Namespace m;
     metav1.ResourceVersion := metav1.ResourceVersion m;
     metav1.Labels := <[k := v]> (metav1.Labels m) |}.

Definition set_Replicas (v : option Z) (s : appsv1.DeploymentSpec)
  : appsv1.DeploymentSpec :=
  {| appsv1.Replicas := v; appsv1.Selector := appsv1.Selector s;
     appsv1.Template := appsv1.Template s |}.

Definition set_Selector (v : option metav1.LabelSelector)
  (s : appsv1.DeploymentSpec) : appsv1.DeploymentSpec :=
  {| appsv1.Replicas := appsv1.Replicas s; appsv1.Selector := v;
     appsv1.Template := appsv1.Template s |}.

Definition with_template (f : apiv1.PodTemplateSpec -> apiv1.PodTemplateSpec)
  (s : appsv1.DeploymentSpec) : appsv1.DeploymentSpec :=
  {| appsv1.Replicas := appsv1.Replicas s; appsv1.Selector := appsv1.Selector s;
     appsv1.Template := f (appsv1.Template s) |}.

Definition with_template_meta (f : metav1.ObjectMeta -> metav1.ObjectMeta)
  (t : apiv1.PodTemplateSpec) : apiv1.PodTemplateSpec :=
  {| apiv1.ObjectMeta := f (apiv1.ObjectMeta t); apiv1.Spec := apiv1.Spec t |}.

Definition set_Containers (cs : list apiv1.Container)
  (t : apiv1.PodTemplateSpec) : apiv1.PodTemplateSpec :=
  {| apiv1.ObjectMeta := apiv1.ObjectMeta t;
     apiv1.Spec := {| apiv1.Containers := cs |} |}.

Definition set_Image (v : string) (c : apiv1.Container) : apiv1.Container :=
  {| apiv1.ContainerName := apiv1.ContainerName c; apiv1.Image := v;
     apiv1.Ports := apiv1.Ports c |}.

Definition containers_of (d : appsv1.Deployment) : list apiv1.Container :=
  apiv1.Containers (apiv1.Spec (appsv1.Template (appsv1.Spec d))).

Definition template_labels (d : appsv1.Deployment) : gmap string string :=
  metav1.Labels (apiv1.ObjectMeta (appsv1.Template (appsv1.Spec d))).

Definition selector_labels (d : appsv1.Deployment) : option (gmap string string) :=
  metav1.MatchLabels <$> appsv1.Selector (appsv1.Spec d).

Definition name_of (d : appsv1.Deployment) : string :=
  metav1.Name (appsv1.ObjectMeta d).

Definition namespace_of (d : appsv1.Deployment) : string :=
  metav1.Namespace (appsv1.ObjectMeta d).

Definition replicas_of (d : appsv1.Deployment) : option Z :=
  appsv1.Replicas (appsv1.Spec d).

(** ** Errors and panics *)

Inductive StatusReason :=
| StatusReasonUnknown
| StatusReasonNotFound
| StatusReasonAlreadyExists
| StatusReasonConflict
| StatusReasonForbidden
| StatusReasonInvalid.

(** A Go [error]: a status error of the API machinery, or a plain error
    string as [fmt.Errorf] builds. *)
Inductive error :=
| StatusError (reason : StatusReason) (message : string)
| errorString (message : string).

Definition Error (e : error) : string :=
  match e with StatusError _ m => m | errorString m => m end.

Definition IsConflict (e : error) : bool :=
  match e with StatusError StatusReasonConflict _ => true | _ => false end.


(** [fmt.Errorf(prefix + "%v", e)]. *)
Definition Errorf (prefix : string) (e : error) : error :=
  errorString (prefix ++ Error e).

Inductive PanicValue :=
| PanicError (e : error)
| NilPointerDereference
| IndexOutOfRange.

Inductive Outcome (A : Type) :=
| Return (a : A)
| Panic (p : PanicValue).
Arguments Return {A} a.
Arguments Panic {A} p.

(** A call that returns [(T, error)]. *)
Inductive result (T : Type) :=
| Ok (t : T)
| Err (e : error).
Arguments Ok {T} t.
Arguments Err {T} e.

Definition err_of {T} (r : result T) : option error :=
  match r with Ok _ => None | Err e => Some e end.

(** ** The clientset, as an oracle over the trace of calls *)

Inductive Call :=
| NamespacesCreate (ns : apiv1.Namespace)
| DeploymentsCreate (namespace : string) (d : appsv1.Deployment)
| DeploymentsGet (namespace name : string)
| DeploymentsUpdate (namespace : string) (d : appsv1.Deployment)
| DeploymentsList (namespace : string)
| DeploymentsDelete (namespace name : string) (options : metav1.DeleteOptions).

(** Each method answers from the calls made before it. *)
Record Clientset := {
  Namespaces_Create : list Call -> apiv1.Namespace -> result apiv1.Namespace;
  Deployments_Create :
    list Call -> string -> appsv1.Deployment -> result appsv1.Deployment;
  Deployments_Get : list Call -> string -> string -> result appsv1.Deployment;
  Deployments_Update :
    list Call -> string -> appsv1.Deployment -> result appsv1.Deployment;
  Deployments_List : list Call -> string -> result (list appsv1.Deployment);
  Deployments_Delete :
    list Call -> string -> string -> metav1.DeleteOptions -> option error
}.

(** ** Requests and responses (go-restful over net/http) *)

Record DeploymentInfo := { Image : string; Namespace : string }.

(** What decoding the request body into a [**DeploymentInfo] does: fill
    the struct; set the pointer to nil (the JSON literal null); fail and
    leave the target as it was (a body that is not JSON, or not an
    object); or, on a JSON object with a value of the wrong type, store
    the fields that do decode ([Some]), leave the others ([None]) and
    still return an error. *)
Inductive Entity :=
| EntityObject (d : DeploymentInfo)
| EntityNull
| EntityUnreadable (e : error)
| EntityMismatch (image namespace : option string) (e : error).

Record Request := {
  pathParameters : gmap string string;
  entity : Entity
}.

Definition PathParameter (req : Request) (name : string) : string :=
  default "" (pathParameters req !! name).

(** The status line is fixed by the first of [WriteHeader] and [Write]. *)
Record Response := {
  statusCode : option Z;
  body : string
}.

Definition Response_zero : Response := {| statusCode := None; body := "" |}.

Definition WriteHeader (code : Z) (r : Response) : Response :=
  {| statusCode := Some (default code (statusCode r)); body := body r |}.

Definition Write (s : string) (r : Response) : Response :=
  {| statusCode := Some (default 200%Z (statusCode r)); body := body r ++ s |}.

(** ** Process state and the handler monad *)

Inductive Arg := ArgString (s : string) | ArgInt (z : Z).

Inductive Output :=
| Println (s : string)
| Printf (format : string) (args : list Arg).

Record Process := {
  deployment : option appsv1.Deployment;
  trace : list Call;
  stdout : list Output;
  resp : Response
}.

Definition M (A : Type) : Type := Process -> Outcome A * Process.

#[global] Instance M_ret : MRet M := λ A a p, (Return a, p).

#[global] Instance M_bind : MBind M := λ A B f m p,
  match m p with
  | (Return a, p') => f a p'
  | (Panic v, p') => (Panic v, p')
  end.

Definition panic {A} (v : PanicValue) : M A := λ p, (Panic v, p).

(** [*ptr]. *)
Definition deref {A} (ptr : option A) : M A :=
  match ptr with
  | Some a => mret a
  | None => panic NilPointerDereference
  end.

Definition get_deployment : M (option appsv1.Deployment) :=
  λ p, (Return (deployment p), p).

Definition put_deployment (d : option appsv1.Deployment) : M unit :=
  λ p, (Return tt,
        {| deployment := d; trace := trace p; stdout := stdout p; resp := resp p |}).

Definition record_call (c : Call) : M (list Call) :=
  λ p, (Return (trace p),
        {| deployment := deployment p; trace := trace p ++ [c];
           stdout := stdout p; resp := resp p |}).

Definition print (o : Output) : M unit :=
  λ p, (Return tt,
        {| deployment := deployment p; trace := trace p;
           stdout := stdout p ++ [o]; resp := resp p |}).

Definition fmt_Println (s : string) : M unit := print (Println s).
Definition fmt_Printf (format : string) (args : list Arg) : M unit :=
  print (Printf format args).

Definition modify_resp (f : Response -> Response) : M unit :=
  λ p, (Return tt,
        {| deployment := deployment p; trace := trace p;
           stdout := stdout p; resp := f (resp p) |}).

Definition io_WriteString (s : string) : M unit := modify_resp (Write s).

(** [resp.WriteError(status, err)]: the status, then the error text. *)
Definition WriteError (httpStatus : Z) (err : error) : M unit :=
  modify_resp (WriteHeader httpStatus);;
  modify_resp (Write (Error err)).

(** An assignment through the global pointer [deployment]. *)
Definition assign (f : appsv1.Deployment -> appsv1.Deployment) : M unit :=
  ptr ← get_deployment;
  d ← deref ptr;
  put_deployment (Some (f d)).

(** [d.Spec.Selector.MatchLabels[k] = v]: the selector is a pointer. *)
Definition assign_MatchLabel (k v : string) : M unit :=
  ptr ← get_deployment;
  d ← deref ptr;
  sel ← deref (appsv1.Selector (appsv1.Spec d));
  put_deployment
    (Some (with_spec
             (set_Selector
                (Some {| metav1.MatchLabels := <[k := v]> (metav1.MatchLabels sel) |}))
             d)).

(** [cs[0].Image = v] with the bounds check of the index expression. *)
Definition index0_set_Image (v : string) (cs : list apiv1.Container)
  : M (list apiv1.Container) :=
  match cs with
  | [] => panic IndexOutOfRange
  | c :: rest => mret (set_Image v c :: rest)
  end.

Definition assign_Container0_Image (v : string) : M unit :=
  ptr ← get_deployment;
  d ← deref ptr;
  cs ← index0_set_Image v (containers_of d);
  put_deployment (Some (with_spec (with_template (set_Containers cs)) d)).

(** [strconv.FormatInt(i, 10)]. *)
Definition FormatInt (i : Z) : string := NilZero.string_of_int (Z.to_int i).

Definition newline : string := String (ascii_of_nat 10) EmptyString.

(** ** The retry helper *)

Module retry.

(** [wait.Backoff]: [Steps] bounds the attempts; the duration (in
    milliseconds here), factor and jitter only shape the sleeps between
    attempts, which are not modelled. *)
Record Backoff := { Steps : nat; Duration : Z }.

Definition DefaultRetry : Backoff := {| Steps := 5; Duration := 10 |}.

(** Modelled from the spec: [retry.RetryOnConflict] belongs to the
    client library, which is not among the sources.  Following section
    4.3: run [fn]; on success stop; on a version conflict run it again,
    at most [Steps] times in all; any other error ends the operation at
    once; when the budget is spent the operation fails with the last
    conflict.  [lastConflictErr] is the variable the helper's closure
    keeps. *)
Fixpoint attempts (steps : nat) (lastConflictErr : option error)
  (fn : M (option error)) : M (option error) :=
  match steps with
  | O => mret lastConflictErr
  | S steps' =>
      err ← fn;
      match err with
      | None => mret None
      | Some e =>
          if IsConflict e then attempts steps' (Some e) fn
          else mret (Some e)
      end
  end.

Definition RetryOnConflict (backoff : Backoff) (fn : M (option error))
  : M (option error) :=
  attempts (Steps backoff) None fn.

End retry.

(** ** The program *)

Definition CreateDeploymentStruct : M unit :=
  put_deployment (Some
    {| appsv1.ObjectMeta :=
         {| metav1.Name := "demo-deployment"; metav1.Namespace := "";
            metav1.ResourceVersion := ""; metav1.Labels := ∅ |};
       appsv1.Spec :=
         {| appsv1.Replicas := int32Ptr 2;
            appsv1.Selector :=
              Some {| metav1.MatchLabels := {[ "app" := "demo" ]} |};
            appsv1.Template :=
              {| apiv1.ObjectMeta :=
                   {| metav1.Name := ""; metav1.Namespace := "";
                      metav1.ResourceVersion := "";
                      metav1.Labels := {[ "app" := "demo" ]} |};
                 apiv1.Spec :=
                   {| apiv1.Containers :=
                        [ {| apiv1.ContainerName := "web";
                             apiv1.Image := "nginx:1.12";
                             apiv1.Ports :=
                               [ {| apiv1.PortName := "http";
                                    apiv1.PortProtocol := apiv1.ProtocolTCP;
                                    apiv1.PortNumber := 80 |} ] |} ] |} |} |} |}).

Section Handlers.

(** [var clientset], set once by [CreateClient] before serving. *)
Variable clientset : Clientset.

Definition core_Namespaces_Create (ns : apiv1.Namespace)
  : M (result apiv1.Namespace) :=
  h ← record_call (NamespacesCreate ns);
  mret (Namespaces_Create clientset h ns).

Definition apps_Deployments_Create (namespace : string) (d : appsv1.Deployment)
  : M (result appsv1.Deployment) :=
  h ← record_call (DeploymentsCreate namespace d);
  mret (Deployments_Create clientset h namespace d).

Definition apps_Deployments_Get (namespace name : string)
  : M (result appsv1.Deployment) :=
  h ← record_call (DeploymentsGet namespace name);
  mret (Deployments_Get clientset h namespace name).

Definition apps_Deployments_Update (namespace : string) (d : appsv1.Deployment)
  : M (result appsv1.Deployment) :=
  h ← record_call (DeploymentsUpdate namespace d);
  mret (Deployments_Update clientset h namespace d).

Definition apps_Deployments_List (namespace : string)
  : M (result (list appsv1.Deployment)) :=
  h ← record_call (DeploymentsList namespace);
  mret (Deployments_List clientset h namespace).

Definition apps_Deployments_Delete (namespace name : string)
  (options : metav1.DeleteOptions) : M (option error) :=
  h ← record_call (DeploymentsDelete namespace name options);
  mret (Deployments_Delete clientset h namespace name options).

(** [req.ReadEntity(&deploy)]; the handler drops the returned error. *)
Definition ReadEntity (req : Request) (target : option DeploymentInfo)
  : option DeploymentInfo * option error :=
  match entity req with
  | EntityObject d => (Some d, None)
  | EntityNull => (None, None)
  | EntityUnreadable e => (target, Some e)
  | EntityMismatch image namespace e =>
      let t := default {| Image := ""; Namespace := "" |} target in
      (Some {| Image := default (Image t) image;
               Namespace := default (Namespace t) namespace |}, Some e)
  end.

Definition CreateNamespace (deploy : DeploymentInfo) : M (option error) :=
  let nsSpec :=
    {| apiv1.NamespaceMeta :=
         set_Name (Namespace deploy) metav1.ObjectMeta_zero |} in
  r ← core_Namespaces_Create nsSpec;
  mret (err_of r).

Definition CreateDeployment (req : Request) : M unit :=
  let deploy := Some {| Image := ""; Namespace := "" |} in
  let deploy := fst (ReadEntity req deploy) in
  fmt_Println "Creating deployment...";;
  info ← deref deploy;
  let appName := RemoveNonAlphanumericChars (Image info) in
  assign (with_meta (set_Name appName));;
  assign_MatchLabel "app" appName;;
  assign (with_meta (set_Namespace (Namespace info)));;
  assign (with_spec (with_template (with_template_meta (set_Label "app" appName))));;
  assign_Container0_Image (Image info);;
  _ ← CreateNamespace info;
  ptr ← get_deployment;
  d ← deref ptr;
  r ← apps_Deployments_Create (Namespace info) d;
  match r with
  | Err err => panic (PanicError err)
  | Ok result =>
      fmt_Printf ("Created deployment %q." ++ newline) [ArgString (name_of result)];;
      io_WriteString ("Created deployment " ++ name_of result)
  end.

(** The closure handed to [RetryOnConflict]: one fetch/mutate/submit
    cycle. *)
Definition update_cycle (namespace deploymentName : string) : M (option error) :=
  r ← apps_Deployments_Get namespace deploymentName;
  match r with
  | Err getErr =>
      panic (PanicError
               (Errorf "Failed to get latest version of Deployment: " getErr))
  | Ok result =>
      let result := with_spec (set_Replicas (int32Ptr 1)) result in
      cs ← index0_set_Image "nginx:1.13" (containers_of result);
      let result := with_spec (with_template (set_Containers cs)) result in
      r ← apps_Deployments_Update namespace result;
      mret (err_of r)
  end.

Definition UpdateDeployment (req : Request) : M unit :=
  let namespace := PathParameter req "namespace-name" in
  let deploymentName := PathParameter req "deployment-name" in
  fmt_Println "Updating deployment...";;
  retryErr ← retry.RetryOnConflict retry.DefaultRetry
               (update_cycle namespace deploymentName);
  match retryErr with
  | Some e => panic (PanicError (Errorf "Update failed: " e))
  | None =>
      fmt_Println "Updated deployment...";;
      io_WriteString "Updated deployment..."
  end.

(** The body of the [range] loop, threading the local buffer. *)
Fixpoint list_items (items : list appsv1.Deployment) (buffer : string)
  : M string :=
  match items with
  | [] => mret buffer
  | d :: rest =>
      let buffer := buffer ++ name_of d in
      let buffer := buffer ++ " " in
      n ← deref (replicas_of d);
      let buffer := buffer ++ FormatInt n in
      let buffer := buffer ++ newline in
      fmt_Printf (" * %s (%d replicas)" ++ newline) [ArgString (name_of d); ArgInt n];;
      list_items rest buffer
  end.

Definition ListDeployment (req : Request) : M unit :=
  let namespace := PathParameter req "namespace-name" in
  fmt_Printf ("Listing deployments in namespace %q:" ++ newline)
    [ArgString namespace];;
  r ← apps_Deployments_List namespace;
  match r with
  | Err err => panic (PanicError err)
  | Ok items =>
      buffer ← list_items items "";
      io_WriteString buffer
  end.

Definition DeleteDeployment (req : Request) : M unit :=
  let namespace := PathParameter req "namespace-name" in
  let deploymentName := PathParameter req "deployment-name" in
  fmt_Println "Deleting deployment...";;
  let deletePolicy := metav1.DeletePropagationForeground in
  err ← apps_Deployments_Delete namespace deploymentName
          {| metav1.PropagationPolicy := Some deletePolicy |};
  match err with
  | Some err =>
      fmt_Println (Error err);;
      WriteError 500 err
  | None => mret tt
  end;;
  fmt_Println "Deleted deployment.";;
  io_WriteString "Deleted deployment.".

(** *** Serving

    The process starts with the global pointer nil; [main] builds the
    template and then serves.  Each request gets a fresh response; a
    panicking handler ends its request and leaves the process state as
    it was at the panic. *)

Definition boot : Process :=
  {| deployment := None; trace := []; stdout := []; resp := Response_zero |}.

Definition started : Process := snd (CreateDeploymentStruct boot).

Inductive Route :=
| GET_list | POST_create | PATCH_update | DELETE_delete.

Definition handler (r : Route) : Request -> M unit :=
  match r with
  | GET_list => ListDeployment
  | POST_create => CreateDeployment
  | PATCH_update => UpdateDeployment
  | DELETE_delete => DeleteDeployment
  end.

Definition serve (r : Route) (req : Request) (p : Process)
  : Outcome unit * Process :=
  handler r req
    {| deployment := deployment p; trace := trace p; stdout := stdout p;
       resp := Response_zero |}.

Inductive Reachable : Process -> Prop :=
| Reachable_started : Reachable started
| Reachable_serve r req p :
    Reachable p -> Reachable (snd (serve r req p)).

End Handlers.

(** ** Simulated stores and observations on traces *)

Definition is_get (c : Call) : bool :=
  match c with DeploymentsGet _ _ => true | _ => false end.

Definition is_update (c : Call) : bool :=
  match c with DeploymentsUpdate _ _ => true | _ => false end.

Definition count_gets (h : list Call) : nat := length (List.filter is_get h).
Definition count_updates (h : list Call) : nat := length (List.filter is_update h).

Definition conflict : error :=
  StatusError StatusReasonConflict "the object has been modified".

Definition already_exists : error :=
  StatusError StatusReasonAlreadyExists "namespaces already exists".

(** A store holding one deployment that rejects the first [k] update
    submissions with a version conflict and accepts every later one; its
    namespace exists already. *)
Definition conflicting_store (k : nat) (stored : appsv1.Deployment) : Clientset :=
  {| Namespaces_Create := λ _ _, Err already_exists;
     Deployments_Create := λ _ _ d, Ok d;
     Deployments_Get := λ _ _ _, Ok stored;
     Deployments_Update := λ h _ d,
       if (count_updates h <? k)%nat then Err conflict else Ok d;
     Deployments_List := λ _ _, Ok [stored];
     Deployments_Delete := λ _ _ _ _, None |}.

(** A store that rejects every update submission with a conflict. *)
Definition always_conflicting_store (stored : appsv1.Deployment) : Clientset :=
  {| Namespaces_Create := λ _ _, Err already_exists;
     Deployments_Create := λ _ _ d, Ok d;
     Deployments_Get := λ _ _ _, Ok stored;
     Deployments_Update := λ _ _ _, Err conflict;
     Deployments_List := λ _ _, Ok [stored];
     Deployments_Delete := λ _ _ _ _, None |}.

(** A store on which deleting fails. *)
Definition failing_delete_store : Clientset :=
  {| Namespaces_Create := λ _ ns, Ok ns;
     Deployments_Create := λ _ _ d, Ok d;
     Deployments_Get := λ _ _ _, Err (StatusError StatusReasonNotFound "not found");
     Deployments_Update := λ _ _ d, Ok d;
     Deployments_List := λ _ _, Ok [];
     Deployments_Delete := λ _ _ _ _,
       Some (StatusError StatusReasonNotFound "deployments.apps not found") |}.

Definition demo_deployment : appsv1.Deployment :=
  {| appsv1.ObjectMeta :=
       {| metav1.Name := "nginx112"; metav1.Namespace := "demo";
          metav1.ResourceVersion := "7"; metav1.Labels := ∅ |};
     appsv1.Spec :=
       {| appsv1.Replicas := Some 2%Z;
          appsv1.Selector := Some {| metav1.MatchLabels := {[ "app" := "nginx112" ]} |};
          appsv1.Template :=
            {| apiv1.ObjectMeta :=
                 {| metav1.Name := ""; metav1.Namespace := "";
                    metav1.ResourceVersion := "";
                    metav1.Labels := {[ "app" := "nginx112" ]} |};
               apiv1.Spec :=
                 {| apiv1.Containers :=
                      [ {| apiv1.ContainerName := "web";
                           apiv1.Image := "nginx:1.12";
                           apiv1.Ports := [] |} ] |} |} |} |}.

Definition request (params : list (string * string)) (e : Entity) : Request :=
  {| pathParameters := list_to_map params; entity := e |}.

Definition demo_path : list (string * string) :=
  [("namespace-name", "demo"); ("deployment-name", "nginx112")].

(** ** The template invariant

    What [CreateDeploymentStruct] establishes and every handler keeps:
    two replicas, selector and pod labels in lockstep, one container
    named web with one named TCP port. *)

Definition http_port : apiv1.ContainerPort :=
  {| apiv1.PortName := "http"; apiv1.PortProtocol := apiv1.ProtocolTCP;
     apiv1.PortNumber := 80 |}.

Definition web_container (image : string) : apiv1.Container :=
  {| apiv1.ContainerName := "web"; apiv1.Image := image;
     apiv1.Ports := [http_port] |}.





(** The five assignments of [CreateDeployment] on a template whose
    selector is [sel] and whose containers are [c :: rest]. *)
Definition fill_template (info : DeploymentInfo) (sel : metav1.LabelSelector)
  (c : apiv1.Container) (rest : list apiv1.Container) (d : appsv1.Deployment)
  : appsv1.Deployment :=
  let appName := RemoveNonAlphanumericChars (Image info) in
  let d := with_meta (set_Name appName) d in
  let d := with_spec (set_Selector
             (Some {| metav1.MatchLabels := <["app" := appName]> (metav1.MatchLabels sel) |})) d in
  let d := with_meta (set_Namespace (Namespace info)) d in
  let d := with_spec (with_template (with_template_meta (set_Label "app" appName))) d in
  with_spec (with_template (set_Containers (set_Image (Image info) c :: rest))) d.

Definition namespace_named (name : string) : apiv1.Namespace :=
  {| apiv1.NamespaceMeta := set_Name name metav1.ObjectMeta_zero |}.

Definition is_create (c : Call) : bool :=
  match c with DeploymentsCreate _ _ => true | _ => false end.

(** An update submission carrying the fixed desired state. *)
Definition fixed_update (c : Call) : Prop :=
  match c with
  | DeploymentsUpdate _ d =>
      replicas_of d = Some 1%Z
      /\ apiv1.Image <$> head (containers_of d) = Some "nginx:1.13"
  | _ => True
  end.

Definition quiet (c : Call) : Prop := is_create c = false /\ fixed_update c.

(** A computation that leaves the template alone, submits no deployment
    for creation and submits updates only with the fixed desired state. *)
Definition frames {A} (m : M A) : Prop :=
  forall p,
    deployment (snd (m p)) = deployment p
    /\ exists l, trace (snd (m p)) = (trace p ++ l)%list /\ Forall quiet l.

(** The rows of the list response, in the specification's wording: one
    line [name replicaCount] per row, in order. *)
Definition list_line (name : string) (replicas : Z) : string :=
  name ++ " " ++ FormatInt replicas ++ newline.

Fixpoint list_body (rows : list (string * Z)) : string :=
  match rows with
  | [] => ""
  | (name, replicas) :: rest => list_line name replicas ++ list_body rest
  end.

(** The state after the calls [l] were issued and nothing else changed. *)
Definition after_calls (p : Process) (l : list Call) : Process :=
  {| deployment := deployment p; trace := (trace p ++ l)%list;
     stdout := stdout p; resp := resp p |}.

(** The object one cycle submits for a fetched deployment with
    containers [c :: rest]. *)
Definition mutated (fetched : appsv1.Deployment) (c : apiv1.Container)
  (rest : list apiv1.Container) : appsv1.Deployment :=
  with_spec (with_template (set_Containers (set_Image "nginx:1.13" c :: rest)))
    (with_spec (set_Replicas (int32Ptr 1)) fetched).

Definition DeploymentInfo_zero : DeploymentInfo := {| Image := ""; Namespace := "" |}.

(** A listed deployment as the list handler reads it, a row with its
    replica count set, and the line the handler prints for a row. *)
Definition row_of (d : appsv1.Deployment) : string * option Z :=
  (name_of d, replicas_of d).

Definition set_row (row : string * Z) : string * option Z :=
  (fst row, Some (snd row)).

Definition row_output (row : string * Z) : Output :=
  Printf (" * %s (%d replicas)" ++ newline) [ArgString (fst row); ArgInt (snd row)].

(** ** The template in closed form

    The template with its four varying fields: in every reachable state
    the global template has this shape, the other fields being those of
    [CreateDeploymentStruct]. *)

Definition template_of (name namespace label image : string) : appsv1.Deployment :=
  {| appsv1.ObjectMeta :=
       {| metav1.Name := name; metav1.Namespace := namespace;
          metav1.ResourceVersion := ""; metav1.Labels := ∅ |};
     appsv1.Spec :=
       {| appsv1.Replicas := Some 2%Z;
          appsv1.Selector := Some {| metav1.MatchLabels := {[ "app" := label ]} |};
          appsv1.Template :=
            {| apiv1.ObjectMeta :=
                 {| metav1.Name := ""; metav1.Namespace := "";
                    metav1.ResourceVersion := "";
                    metav1.Labels := {[ "app" := label ]} |};
               apiv1.Spec := {| apiv1.Containers := [web_container image] |} |} |} |}.

(** The deployment a create request for [image] in [namespace] submits. *)
Definition created_deployment (image namespace : string) : appsv1.Deployment :=
  let appName := RemoveNonAlphanumericChars image in
  template_of appName namespace appName image.

Definition Canonical (p : Process) : Prop :=
  exists name namespace label image,
    deployment p = Some (template_of name namespace label image).

(** The calls of an update operation on [namespace]/[name]. *)
Definition cycle_call (namespace name : string) (c : Call) : Prop :=
  c = DeploymentsGet namespace name
  \/ exists d, c = DeploymentsUpdate namespace d /\ fixed_update c.

(** ** The web service

    [CreateWebService]: the root path and the four routes, each with its
    method, its path template and the handler it leads to.  Dispatching
    is the router's business and is not modelled. *)

Inductive Method := GET | POST | PATCH | DELETE.

Inductive Segment :=
| Literal (text : string)
| Bound (name : string).

Record RouteEntry := {
  RouteMethod : Method;
  RoutePath : list Segment;
  To : Route
}.

Record WebService := {
  Path : list Segment;
  Routes : list RouteEntry
}.

Definition CreateWebService : WebService :=
  {| Path := [Literal "deployment"];
     Routes :=
       [ {| RouteMethod := GET;
            RoutePath := [Literal "namespace"; Bound "namespace-name"];
            To := GET_list |};
         {| RouteMethod := POST; RoutePath := []; To := POST_create |};
         {| RouteMethod := PATCH;
            RoutePath := [Bound "deployment-name"; Literal "namespace";
                          Bound "namespace-name"];
            To := PATCH_update |};
         {| RouteMethod := DELETE;
            RoutePath := [Bound "deployment-name"; Literal "namespace";
                          Bound "namespace-name"];
            To := DELETE_delete |} ] |}.

(** The names a path template binds. *)
Fixpoint bound_names (path : list Segment) : list string :=
  match path with
  | [] => []
  | Literal _ :: rest => bound_names rest
  | Bound name :: rest => name :: bound_names rest
  end.

(** ** Start-up

    [main] creates the client, builds the template and serves.  What the
    libraries answer at start-up is the environment. *)

Section Startup.

(** [rest.Config]. *)
Variable Config : Type.

Record Environment := {
  InClusterConfig : result Config;
  HomeDir : string;
  Join : list string -> string;
  (** [flag.Parse] on the command line: [None] when it is rejected,
      otherwise the value given to [-kubeconfig], if any. *)
  CommandLine : option (option string);
  BuildConfigFromFlags : string -> string -> result Config;
  NewForConfig : Config -> result Clientset
}.

(** How start-up ends when it does not serve: [log.Fatal] with its
    message, or the flag package rejecting the command line. *)
Inductive Exit :=
| LogFatal (message : string)
| FlagExit.

Inductive Boot (A : Type) :=
| Up (a : A)
| Down (e : Exit).
Arguments Up {A} a.
Arguments Down {A} e.

Variable env : Environment.

Definition ReadKubeConfig : Boot string :=
  let home := HomeDir env in
  let preset :=
    if negb (String.eqb home "") then Join env [home; ".kube"; "config"]
    else "" in
  match CommandLine env with
  | None => Down FlagExit
  | Some given => Up (default preset given)
  end.

Definition BuildConfigFromKubeConfig (config : option Config) (kubeconfig : string)
  : Boot Config :=
  match BuildConfigFromFlags env "" kubeconfig with
  | Err _ =>
      Down (LogFatal "Failed to configure client. Must run in cluster with a service account or must have a available config file on directory ~/.kube/")
  | Ok config => Up config
  end.

Definition CreateClient : Boot Clientset :=
  let config :=
    match InClusterConfig env with
    | Ok config => Up config
    | Err _ =>
        match ReadKubeConfig with
        | Up kubeconfig => BuildConfigFromKubeConfig None kubeconfig
        | Down e => Down e
        end
    end in
  match config with
  | Down e => Down e
  | Up config =>
      match NewForConfig env config with
      | Err err => Down (LogFatal ("Failed to create k8s api client." ++ Error err))
      | Ok clientset => Up clientset
      end
  end.

(** [main] up to the point where it serves: the clientset and the
    process state that [CreateWebService] starts from. *)
Definition main : Boot (Clientset * Process) :=
  match CreateClient with
  | Down e => Down e
  | Up clientset => Up (clientset, snd (CreateDeploymentStruct boot))
  end.

End Startup.

Arguments Up {A} a.
Arguments Down {A} e.

(** ** The cycles of an update operation

    [Cycles cs ns name h l]: starting from the trace [h], the calls [l]
    are fetch/mutate/submit cycles on [ns]/[name], each update being the
    mutation of what its get returned; a get that fails, or returns a
    deployment without containers, ends the operation. *)

Inductive Cycles (cs : Clientset) (ns name : string)
  : list Call -> list Call -> Prop :=
| Cycles_done h : Cycles cs ns name h []
| Cycles_fetch_failed h :
    (forall d c rest,
       Deployments_Get cs h ns name = Ok d -> containers_of d <> c :: rest) ->
    Cycles cs ns name h [DeploymentsGet ns name]
| Cycles_cycle h d c rest l :
    Deployments_Get cs h ns name = Ok d ->
    containers_of d = c :: rest ->
    Cycles cs ns name
      (h ++ [DeploymentsGet ns name; DeploymentsUpdate ns (mutated d c rest)]) l ->
    Cycles cs ns name h
      (DeploymentsGet ns name :: DeploymentsUpdate ns (mutated d c rest) :: l).

(** ** Overlapping requests

    The server runs each request on a goroutine of its own, and the
    handlers share the global [deployment] without a lock.  A handler is
    cut into its statements, each one atomic; a schedule says which of
    two handlers runs its next statement.  The response belongs to the
    request; template, trace and standard output are shared. *)

Definition create_statements (clientset : Clientset) (info : DeploymentInfo)
  : list (M unit) :=
  let appName := RemoveNonAlphanumericChars (Image info) in
  [ assign (with_meta (set_Name appName));
    assign_MatchLabel "app" appName;
    assign (with_meta (set_Namespace (Namespace info)));
    assign (with_spec (with_template (with_template_meta (set_Label "app" appName))));
    assign_Container0_Image (Image info);
    (_ ← CreateNamespace clientset info; mret tt);
    (ptr ← get_deployment;
     d ← deref ptr;
     r ← apps_Deployments_Create clientset (Namespace info) d;
     match r with
     | Err err => panic (PanicError err)
     | Ok result =>
         fmt_Printf ("Created deployment %q." ++ newline) [ArgString (name_of result)];;
         io_WriteString ("Created deployment " ++ name_of result)
     end) ].

Definition create_thread (clientset : Clientset) (req : Request) : list (M unit) :=
  fmt_Println "Creating deployment..."
  :: match fst (ReadEntity req (Some {| Image := ""; Namespace := "" |})) with
     | None => [panic NilPointerDereference]
     | Some info => create_statements clientset info
     end.

(** The statements one after the other. *)
Fixpoint run_statements (statements : list (M unit)) : M unit :=
  match statements with
  | [] => mret tt
  | m :: rest => m;; run_statements rest
  end.

Record Thread := {
  pending : list (M unit);
  response : Response;
  finished : option (Outcome unit)
}.

Definition spawn (statements : list (M unit)) : Thread :=
  {| pending := statements; response := Response_zero; finished := None |}.

(** The next statement of [t], on the shared state [p]. *)
Definition step (t : Thread) (p : Process) : Thread * Process :=
  match finished t, pending t with
  | None, m :: rest =>
      let '(o, p') :=
        m {| deployment := deployment p; trace := trace p; stdout := stdout p;
             resp := response t |} in
      ({| pending := match o with Return _ => rest | Panic _ => [] end;
          response := resp p';
          finished :=
            match o with
            | Panic v => Some (Panic v)
            | Return _ => match rest with [] => Some (Return tt) | _ => None end
            end |},
       {| deployment := deployment p'; trace := trace p'; stdout := stdout p';
          resp := resp p |})
  | _, _ => (t, p)
  end.

(** [true] runs a statement of the first thread, [false] of the second. *)
Fixpoint run (schedule : list bool) (a b : Thread) (p : Process)
  : Thread * Thread * Process :=
  match schedule with
  | [] => (a, b, p)
  | true :: schedule' => let '(a', p') := step a p in run schedule' a' b p'
  | false :: schedule' => let '(b', p') := step b p in run schedule' a b' p'
  end.

(** Two overlapping create requests: nginx:1.12 for namespace a, redis:7
    for namespace b. *)
Definition request_a : Request :=
  request [] (EntityObject {| Image := "nginx:1.12"; Namespace := "a" |}).

Definition request_b : Request :=
  request [] (EntityObject {| Image := "redis:7"; Namespace := "b" |}).

(** A store that accepts everything. *)
Definition accepting_store : Clientset :=
  {| Namespaces_Create := λ _ ns, Ok ns;
     Deployments_Create := λ _ _ d, Ok d;
     Deployments_Get := λ _ _ _, Err (StatusError StatusReasonNotFound "not found");
     Deployments_Update := λ _ _ d, Ok d;
     Deployments_List := λ _ _, Ok [];
     Deployments_Delete := λ _ _ _ _, None |}.



(** The first request alone, then the second alone. *)
Definition schedule_in_turn : list bool :=
  repeat true 8 ++ repeat false 8.

(** The shared part of a state after [run], with the response of a
    thread put in. *)
Definition with_resp (r : Response) (p : Process) : Process :=
  {| deployment := deployment p; trace := trace p; stdout := stdout p;
     resp := r |}.


(** * Properties *)

(** ** Name derivation *)

Section NameDerivation.

(** The Go loop deletes exactly the bytes the class matches, whatever
    the class. *)
Variable cc : Regexp.CharClass.
Let keep (c : ascii) : bool := negb (Regexp.class_matches cc c).

Lemma run_length_skip s :
  List.filter keep (skipn (Regexp.run_length cc s) s) = List.filter keep s
  /\ (length (skipn (Regexp.run_length cc s) s) <= length s)%nat.
Proof.
  induction s as [|c s [IHf IHl]]; simpl; [split; [reflexivity | lia]|].
  unfold keep at 2.
  destruct (Regexp.class_matches cc c) eqn:E; cbn.
  - split; [exact IHf | lia].
  - unfold keep at 1. rewrite E. cbn. split; [reflexivity | lia].
Qed.

Lemma find_match_None s :
  Regexp.find_match cc s = None -> List.filter keep s = s.
Proof.
  induction s as [|c s IH]; cbn; [reflexivity|].
  unfold keep at 1.
  destruct (Regexp.class_matches cc c) eqn:E; [discriminate|].
  destruct (Regexp.find_match cc s) as [[a0 a1]|]; [discriminate|].
  intros _. cbn. f_equal. apply IH. reflexivity.
Qed.

Lemma find_match_Some s a0 a1 :
  Regexp.find_match cc s = Some (a0, a1) ->
  List.filter keep s = (firstn a0 s ++ List.filter keep (skipn a1 s))%list
  /\ (length (skipn a1 s) < length s)%nat.
Proof.
  revert a0 a1. induction s as [|c s IH]; cbn; [discriminate|].
  intros a0 a1. unfold keep at 1.
  destruct (Regexp.class_matches cc c) eqn:E; cbn.
  - intros [= <- <-]. cbn.
    destruct (run_length_skip s) as [Hf Hl]. split; [symmetry; exact Hf | lia].
  - destruct (Regexp.find_match cc s) as [[b0 b1]|]; [|discriminate].
    intros [= <- <-]. cbn.
    destruct (IH b0 b1 eq_refl) as [Hf Hl]. split; [f_equal; exact Hf | lia].
Qed.

Lemma replace_loop_filter fuel src :
  (length src <= fuel)%nat ->
  Regexp.replace_loop fuel cc src [] = List.filter keep src.
Proof.
  revert src. induction fuel as [|fuel IH]; intros src Hlen.
  - destruct src; [reflexivity | cbn in Hlen; lia].
  - cbn. destruct (Regexp.find_match cc src) as [[a0 a1]|] eqn:E.
    + destruct (find_match_Some _ _ _ E) as [Hf Hl].
      rewrite IH by lia. cbn. symmetry. exact Hf.
    + symmetry. apply find_match_None. exact E.
Qed.

End NameDerivation.

Lemma class_matches_alnum c :
  Regexp.class_matches (Regexp.plus_of non_alphanumeric) c = negb (is_alnum c).
Proof.
  destruct c as [[] [] [] [] [] [] [] []]; vm_compute; reflexivity.
Qed.

Lemma String_length_list s : String.length s = length (list_ascii_of_string s).
Proof. induction s as [|c s IH]; cbn; [reflexivity | f_equal; exact IH]. Qed.

Lemma append_assoc (a b c : string) : (a ++ b) ++ c = a ++ (b ++ c).
Proof.
  induction a as [|x a IH]; [reflexivity|].
  change (String x ((a ++ b) ++ c) = String x (a ++ b ++ c)).
  rewrite IH. reflexivity.
Qed.

Lemma append_empty_r (a : string) : a ++ "" = a.
Proof.
  induction a as [|x a IH]; [reflexivity|].
  change (String x (a ++ "") = String x a). rewrite IH. reflexivity.
Qed.

Lemma RemoveNonAlphanumericChars_strip s :
  RemoveNonAlphanumericChars s = strip_non_alnum s.
Proof.
  unfold RemoveNonAlphanumericChars, Regexp.ReplaceAllString, strip_non_alnum.
  f_equal. change (list_ascii_of_string "") with (@nil ascii).
  rewrite replace_loop_filter by (rewrite String_length_list; lia).
  apply List.filter_ext. intros c. rewrite class_matches_alnum.
  apply negb_involutive.
Qed.

Lemma strip_non_alnum_only_alnum s : only_alnum (strip_non_alnum s).
Proof.
  unfold only_alnum, strip_non_alnum.
  rewrite list_ascii_of_string_of_list_ascii.
  apply List.Forall_forall. intros c Hc.
  apply List.filter_In in Hc. tauto.
Qed.

Lemma filter_idem {A} (f : A -> bool) (l : list A) :
  List.filter f (List.filter f l) = List.filter f l.
Proof.
  induction l as [|a l IH]; cbn; [reflexivity|].
  destruct (f a) eqn:E; cbn; rewrite ?E, IH; reflexivity.
Qed.

(** C3. Name derivation: for every image string [s] (the empty one
    included), the name [RemoveNonAlphanumericChars] derives is [s] with
    every character outside [[a-zA-Z0-9]] stripped; it contains only
    characters of [[a-zA-Z0-9]]; deriving again from the same [s] gives
    the same string, and deriving from the derived name changes
    nothing. *)
Theorem name_derivation (s : string) :
  RemoveNonAlphanumericChars s = strip_non_alnum s
  /\ only_alnum (RemoveNonAlphanumericChars s)
  /\ (forall s', s' = s ->
        RemoveNonAlphanumericChars s' = RemoveNonAlphanumericChars s)
  /\ RemoveNonAlphanumericChars (RemoveNonAlphanumericChars s)
     = RemoveNonAlphanumericChars s.
Proof.
  repeat split.
  - apply RemoveNonAlphanumericChars_strip.
  - rewrite RemoveNonAlphanumericChars_strip. apply strip_non_alnum_only_alnum.
  - intros s' ->. reflexivity.
  - rewrite !RemoveNonAlphanumericChars_strip. unfold strip_non_alnum at 1 2.
    rewrite list_ascii_of_string_of_list_ascii, filter_idem. reflexivity.
Qed.

(** ** Running the create handler *)

(** Unfold the monad and its primitive operations, then compute. *)
Ltac run_monad :=
  cbv beta iota zeta delta
    [mbind M_bind mret M_ret panic deref get_deployment put_deployment
     record_call print fmt_Println fmt_Printf modify_resp io_WriteString
     WriteError assign assign_MatchLabel assign_Container0_Image
     index0_set_Image core_Namespaces_Create apps_Deployments_Create
     apps_Deployments_Get apps_Deployments_Update apps_Deployments_List
     apps_Deployments_Delete CreateNamespace fst snd
     deployment trace stdout resp];
  cbn.

#[local] Arguments RemoveNonAlphanumericChars : simpl never.

Lemma CreateDeployment_run cs req p info d sel c rest :
  fst (ReadEntity req (Some DeploymentInfo_zero)) = Some info ->
  deployment p = Some d ->
  appsv1.Selector (appsv1.Spec d) = Some sel ->
  containers_of d = c :: rest ->
  let d' := fill_template info sel c rest d in
  let h := (trace p ++ [NamespacesCreate (namespace_named (Namespace info))])%list in
  let out := (stdout p ++ [Println "Creating deployment..."])%list in
  CreateDeployment cs req p =
  match Deployments_Create cs h (Namespace info) d' with
  | Err err =>
      (Panic (PanicError err),
       {| deployment := Some d';
          trace := h ++ [DeploymentsCreate (Namespace info) d'];
          stdout := out; resp := resp p |})
  | Ok result =>
      (Return tt,
       {| deployment := Some d';
          trace := h ++ [DeploymentsCreate (Namespace info) d'];
          stdout := out ++ [Printf ("Created deployment %q." ++ newline)
                              [ArgString (name_of result)]];
          resp := Write ("Created deployment " ++ name_of result) (resp p) |})
  end.
Proof.
  intros He Hd Hs Hc d' h out.
  destruct p as [dep tr so rs]. cbn in Hd. subst dep.
  destruct d as [meta [reps sl [tmeta [cs0]]]]. cbn in Hs, Hc. subst sl cs0.
  unfold CreateDeployment. fold DeploymentInfo_zero. rewrite He.
  subst d' h out. run_monad.
  destruct (Deployments_Create cs _ _ _); reflexivity.
Qed.

Lemma CreateDeployment_nil cs req p :
  fst (ReadEntity req (Some DeploymentInfo_zero)) = None ->
  CreateDeployment cs req p =
  (Panic NilPointerDereference,
   {| deployment := deployment p; trace := trace p;
      stdout := stdout p ++ [Println "Creating deployment..."];
      resp := resp p |}).
Proof.
  intros He. unfold CreateDeployment. fold DeploymentInfo_zero. rewrite He.
  reflexivity.
Qed.


(** ** Handlers that leave the template alone *)

Create HintDb frames.

Section Frames.

Variable cs : Clientset.

Lemma frames_ret {A} (a : A) : frames (mret a : M A).
Proof.
  intros p. split; [reflexivity|]. exists []. split; [|constructor].
  cbn. rewrite app_nil_r. reflexivity.
Qed.

Lemma frames_panic {A} v : frames (panic v : M A).
Proof.
  intros p. split; [reflexivity|]. exists []. split; [|constructor].
  cbn. rewrite app_nil_r. reflexivity.
Qed.

Lemma frames_bind {A B} (m : M A) (f : A -> M B) :
  frames m -> (forall a, frames (f a)) -> frames (m ≫= f).
Proof.
  intros Hm Hf p. unfold mbind, M_bind.
  destruct (Hm p) as (Hd & l & Ht & Hl).
  destruct (m p) as [[a|v] p1]; cbn in *.
  - destruct (Hf a p1) as (Hd' & l' & Ht' & Hl').
    split; [congruence|]. exists (l ++ l')%list. split.
    + rewrite Ht', Ht, app_assoc. reflexivity.
    + apply Forall_app. split; assumption.
  - split; [assumption|]. exists l. split; assumption.
Qed.

Lemma frames_bind_panic {A B} v (f : A -> M B) : frames (panic v ≫= f).
Proof. exact (frames_panic v). Qed.

Lemma frames_bind_ret {A B} (a : A) (f : A -> M B) :
  frames (f a) -> frames (mret a ≫= f).
Proof. intros Hf p. exact (Hf p). Qed.

Lemma frames_deref {A} (ptr : option A) : frames (deref ptr).
Proof. destruct ptr; [apply frames_ret | apply frames_panic]. Qed.

Lemma frames_print o : frames (print o).
Proof.
  intros p. split; [reflexivity|]. exists []. split; [|constructor].
  cbn. rewrite app_nil_r. reflexivity.
Qed.

Lemma frames_modify_resp f : frames (modify_resp f).
Proof.
  intros p. split; [reflexivity|]. exists []. split; [|constructor].
  cbn. rewrite app_nil_r. reflexivity.
Qed.

Lemma frames_record_call c : quiet c -> frames (record_call c).
Proof.
  intros Hc p. split; [reflexivity|]. exists [c]. split; [reflexivity|].
  constructor; [assumption | constructor].
Qed.

Lemma frames_index0_set_Image v l : frames (index0_set_Image v l).
Proof. destruct l; [apply frames_panic | apply frames_ret]. Qed.

Lemma frames_call {A} c (answer : list Call -> A) :
  quiet c -> frames (h ← record_call c; mret (answer h)).
Proof.
  intros Hc. apply frames_bind; [apply frames_record_call, Hc|].
  intros h. apply frames_ret.
Qed.

Hint Resolve frames_ret frames_panic frames_deref frames_print
  frames_modify_resp frames_index0_set_Image : frames.

Ltac frames_step :=
  first [ apply frames_call; split; [reflexivity | exact I]
        | solve [auto with frames]
        | apply frames_bind; [|intros ?] ].

Lemma frames_update_cycle ns name : frames (update_cycle cs ns name).
Proof.
  unfold update_cycle, apps_Deployments_Get, apps_Deployments_Update.
  apply frames_bind; [apply frames_call; split; [reflexivity | exact I]|].
  intros [result|getErr]; [|apply frames_panic].
  destruct result as [meta [reps sel [tmeta [[|c rest]]]]].
  - apply frames_bind_panic.
  - apply frames_bind_ret.
    apply frames_bind; [|intros ?; apply frames_ret].
    apply frames_call. split; [reflexivity|]. split; reflexivity.
Qed.

Lemma frames_attempts steps last fn :
  frames fn -> frames (retry.attempts steps last fn).
Proof.
  intros Hfn. revert last. induction steps as [|n IH]; intros last; cbn.
  - apply frames_ret.
  - apply frames_bind; [assumption|]. intros [e|]; [|apply frames_ret].
    destruct (IsConflict e); [apply IH | apply frames_ret].
Qed.

Lemma frames_UpdateDeployment req : frames (UpdateDeployment cs req).
Proof.
  unfold UpdateDeployment, fmt_Println, io_WriteString.
  apply frames_bind; [auto with frames | intros _].
  apply frames_bind.
  - apply frames_attempts, frames_update_cycle.
  - intros [e|]; repeat frames_step.
Qed.

Lemma frames_list_items items buffer : frames (list_items items buffer).
Proof.
  revert buffer. induction items as [|d rest IH]; intros buffer; cbn.
  - apply frames_ret.
  - unfold fmt_Printf.
    apply frames_bind; [auto with frames | intros n].
    apply frames_bind; [auto with frames | intros _]. apply IH.
Qed.

Lemma frames_ListDeployment req : frames (ListDeployment cs req).
Proof.
  unfold ListDeployment, fmt_Printf, io_WriteString, apps_Deployments_List.
  apply frames_bind; [auto with frames | intros _].
  apply frames_bind; [apply frames_call; split; [reflexivity | exact I]|].
  intros [items|err]; [|auto with frames].
  apply frames_bind; [apply frames_list_items | intros ?].
  auto with frames.
Qed.

Lemma frames_DeleteDeployment req : frames (DeleteDeployment cs req).
Proof.
  unfold DeleteDeployment, fmt_Println, io_WriteString, WriteError,
    apps_Deployments_Delete.
  apply frames_bind; [auto with frames | intros _].
  apply frames_bind; [apply frames_call; split; [reflexivity | exact I]|].
  intros [err|]; repeat frames_step.
Qed.

End Frames.

(** ** The template invariant holds in every reachable state *)








(** ** The create path *)







(** ** The update path: the mutation *)

Lemma UpdateDeployment_path cs req req' :
  pathParameters req' = pathParameters req ->
  UpdateDeployment cs req' = UpdateDeployment cs req.
Proof.
  intros H. unfold UpdateDeployment, PathParameter. rewrite H. reflexivity.
Qed.

(** ** The delete path *)

Lemma DeleteDeployment_run cs req p :
  let ns := PathParameter req "namespace-name" in
  let name := PathParameter req "deployment-name" in
  let options :=
    {| metav1.PropagationPolicy := Some metav1.DeletePropagationForeground |} in
  DeleteDeployment cs req p =
  match Deployments_Delete cs (trace p) ns name options with
  | None =>
      (Return tt,
       {| deployment := deployment p;
          trace := trace p ++ [DeploymentsDelete ns name options];
          stdout := stdout p ++ [Println "Deleting deployment...";
                                 Println "Deleted deployment."];
          resp := Write "Deleted deployment." (resp p) |})
  | Some err =>
      (Return tt,
       {| deployment := deployment p;
          trace := trace p ++ [DeploymentsDelete ns name options];
          stdout := stdout p ++ [Println "Deleting deployment...";
                                 Println (Error err);
                                 Println "Deleted deployment."];
          resp := Write "Deleted deployment."
                    (Write (Error err) (WriteHeader 500 (resp p))) |})
  end.
Proof.
  intros ns name options. destruct p as [dep tr so rs].
  unfold DeleteDeployment. fold ns name. run_monad. fold options.
  destruct (Deployments_Delete cs tr ns name options);
    cbn; rewrite <- ?app_assoc; reflexivity.
Qed.

(** What the delete handler does in general: foreground propagation, no
    panic; on success the body is the success text under status 200; on
    failure the status is 500 and the body is the error text followed by
    the success text. *)
Lemma delete_semantics cs req p :
  let ns := PathParameter req "namespace-name" in
  let name := PathParameter req "deployment-name" in
  let options :=
    {| metav1.PropagationPolicy := Some metav1.DeletePropagationForeground |} in
  fst (serve cs DELETE_delete req p) = Return tt
  /\ trace (snd (serve cs DELETE_delete req p))
     = (trace p ++ [DeploymentsDelete ns name options])%list
  /\ resp (snd (serve cs DELETE_delete req p))
     = match Deployments_Delete cs (trace p) ns name options with
       | None => {| statusCode := Some 200%Z; body := "Deleted deployment." |}
       | Some err =>
           {| statusCode := Some 500%Z;
              body := Error err ++ "Deleted deployment." |}
       end.
Proof.
  intros ns name options. unfold serve. cbn [handler].
  rewrite DeleteDeployment_run. fold ns name options. cbn [trace resp].
  destruct (Deployments_Delete cs (trace p) ns name options);
    repeat split; reflexivity.
Qed.

(** C8, at a failing delete. The store answers the delete of
    demo/nginx112 with a not-found error: the handler issues the delete
    with foreground propagation, does not panic and writes status 500
    with the error text, but then goes on to the success path, so that
    the body ends with the success text. *)
Theorem delete_failure_also_writes_success_body :
  let req := request demo_path EntityNull in
  let p := snd (serve failing_delete_store DELETE_delete req started) in
  fst (serve failing_delete_store DELETE_delete req started) = Return tt
  /\ trace p
     = [DeploymentsDelete "demo" "nginx112"
          {| metav1.PropagationPolicy := Some metav1.DeletePropagationForeground |}]
  /\ resp p
     = {| statusCode := Some 500%Z;
          body := "deployments.apps not foundDeleted deployment." |}
  /\ stdout p
     = [Println "Deleting deployment..."; Println "deployments.apps not found";
        Println "Deleted deployment."].
Proof. vm_compute. repeat split; reflexivity. Qed.

(** ** The list path *)

Lemma list_items_run rows : forall items buffer p,
  map row_of items = map set_row rows ->
  list_items items buffer p =
  (Return (buffer ++ list_body rows),
   {| deployment := deployment p; trace := trace p;
      stdout := stdout p ++ map row_output rows; resp := resp p |}).
Proof.
  induction rows as [|[n r] rows IH]; intros [|d items] buffer p Hrows;
    try discriminate.
  - cbn. rewrite append_empty_r, app_nil_r. destruct p; reflexivity.
  - cbn in Hrows. injection Hrows as Hn Hr Hrest.
    cbn [list_items]. unfold row_of in *. rewrite Hr, Hn. run_monad.
    rewrite (IH items _ _ Hrest). cbn [deployment trace stdout resp].
    unfold list_line. rewrite !append_assoc, <- app_assoc. reflexivity.
Qed.

Lemma list_items_nil : forall items buffer p,
  Exists (fun d => replicas_of d = None) items ->
  fst (list_items items buffer p) = Panic NilPointerDereference
  /\ resp (snd (list_items items buffer p)) = resp p.
Proof.
  induction items as [|d items IH]; intros buffer p Hex.
  - inversion Hex.
  - cbn [list_items]. destruct (replicas_of d) as [n|] eqn:Hd.
    + assert (Hex' : Exists (fun d => replicas_of d = None) items).
      { inversion Hex as [? ? H|]; [congruence | assumption]. }
      run_monad.
      match goal with |- context [list_items items ?b ?q] =>
        destruct (IH b q Hex') as [Ho Hr] end.
      split; [exact Ho | exact Hr].
    + split; reflexivity.
Qed.

Lemma ListDeployment_listed cs req p items :
  Deployments_List cs (trace p) (PathParameter req "namespace-name") = Ok items ->
  ListDeployment cs req p =
  let q := {| deployment := deployment p;
              trace := trace p ++ [DeploymentsList (PathParameter req "namespace-name")];
              stdout := stdout p ++ [Printf ("Listing deployments in namespace %q:" ++ newline)
                                       [ArgString (PathParameter req "namespace-name")]];
              resp := resp p |} in
  (buffer ← list_items items ""; io_WriteString buffer) q.
Proof.
  intros Hl. destruct p as [dep tr so rs]. cbn [trace] in Hl.
  unfold ListDeployment.
  cbv beta iota zeta delta
    [mbind M_bind mret M_ret record_call print fmt_Printf apps_Deployments_List
     deployment trace stdout resp].
  rewrite Hl. reflexivity.
Qed.

(** C10. List handler totality precondition: when the store returns
    [items], the list handler answers (status 200, one line
    [name replicaCount] per item in the store's order) provided every
    item has its replica count set; as soon as one item has none, the
    unguarded dereference panics and nothing is written. *)
Theorem list_total_when_replicas_set cs p req items :
  Deployments_List cs (trace p) (PathParameter req "namespace-name") = Ok items ->
  (forall rows,
     map row_of items = map set_row rows ->
     fst (serve cs GET_list req p) = Return tt
     /\ resp (snd (serve cs GET_list req p))
        = {| statusCode := Some 200%Z; body := list_body rows |})
  /\ (Exists (fun d => replicas_of d = None) items ->
      fst (serve cs GET_list req p) = Panic NilPointerDereference
      /\ resp (snd (serve cs GET_list req p)) = Response_zero).
Proof.
  intros Hl. unfold serve. cbn [handler].
  rewrite (ListDeployment_listed cs req
             {| deployment := deployment p; trace := trace p;
                stdout := stdout p; resp := Response_zero |} items Hl).
  cbv zeta. split.
  - intros rows Hrows. unfold mbind, M_bind.
    rewrite (list_items_run rows items _ _ Hrows). split; reflexivity.
  - intros Hex. unfold mbind, M_bind.
    match goal with |- context [list_items items ?b ?q] =>
      destruct (list_items_nil items b q Hex) as [Ho Hr];
      destruct (list_items items b q) as [[a|v] q'] end;
      cbn in Ho, Hr; [discriminate|].
    injection Ho as ->. split; [reflexivity | exact Hr].
Qed.

Lemma list_total_when_replicas_set_witness :
  let cs := conflicting_store 0 demo_deployment in
  let req := request demo_path EntityNull in
  (forall rows,
     map row_of [demo_deployment] = map set_row rows ->
     fst (serve cs GET_list req started) = Return tt
     /\ resp (snd (serve cs GET_list req started))
        = {| statusCode := Some 200%Z; body := list_body rows |})
  /\ (Exists (fun d => replicas_of d = None) [demo_deployment] ->
      fst (serve cs GET_list req started) = Panic NilPointerDereference
      /\ resp (snd (serve cs GET_list req started)) = Response_zero).
Proof.
  intros cs req.
  apply (list_total_when_replicas_set cs started req [demo_deployment]).
  reflexivity.
Defined.

(** ** The update path: retrying on conflict *)

Lemma count_gets_app l1 l2 : count_gets (l1 ++ l2) = count_gets l1 + count_gets l2.
Proof. unfold count_gets. rewrite List.filter_app, length_app. reflexivity. Qed.

Lemma count_updates_app l1 l2 :
  count_updates (l1 ++ l2) = count_updates l1 + count_updates l2.
Proof. unfold count_updates. rewrite List.filter_app, length_app. reflexivity. Qed.

Lemma after_calls_app p l1 l2 :
  after_calls (after_calls p l1) l2 = after_calls p (l1 ++ l2).
Proof. unfold after_calls. cbn. rewrite app_assoc. reflexivity. Qed.

(** One cycle on a store whose fetch succeeds: a get, then the update of
    the mutated object; the cycle returns the update's error. *)
Lemma update_cycle_run cs ns name p d c rest :
  Deployments_Get cs (trace p) ns name = Ok d ->
  containers_of d = c :: rest ->
  update_cycle cs ns name p =
  (Return (err_of (Deployments_Update cs (trace p ++ [DeploymentsGet ns name]) ns
                     (mutated d c rest))),
   after_calls p [DeploymentsGet ns name; DeploymentsUpdate ns (mutated d c rest)]).
Proof.
  intros Hg Hc. destruct p as [dep tr so rs]. cbn [trace] in Hg.
  unfold update_cycle.
  cbv beta iota zeta delta
    [mbind M_bind mret M_ret record_call apps_Deployments_Get
     deployment trace stdout resp].
  rewrite Hg.
  destruct d as [meta [reps sel [tmeta [cs0]]]]. cbn in Hc. subst cs0.
  unfold after_calls. run_monad. rewrite <- app_assoc. reflexivity.
Qed.

Section Retry.

Variable cs : Clientset.
Variables ns name : string.

(** The trace when the operation starts. *)
Variable base : list Call.

(** Every fetch succeeds and returns a deployment with a container. *)
Hypothesis fetches :
  forall l, exists d,
    Deployments_Get cs (base ++ l) ns name = Ok d /\ containers_of d <> [].

Lemma cycle_at p l0 :
  trace p = (base ++ l0)%list ->
  exists d,
    update_cycle cs ns name p =
    (Return (err_of (Deployments_Update cs
                       (base ++ (l0 ++ [DeploymentsGet ns name])) ns d)),
     after_calls p [DeploymentsGet ns name; DeploymentsUpdate ns d]).
Proof.
  intros Ht. destruct (fetches l0) as (d & Hg & Hc).
  destruct (containers_of d) as [|c rest] eqn:Hcs; [congruence|].
  exists (mutated d c rest).
  rewrite <- Ht in Hg. rewrite (update_cycle_run cs ns name p d c rest Hg Hcs).
  rewrite Ht, <- app_assoc. reflexivity.
Qed.

(** With [m] conflicts still to come and more than [m] attempts left,
    the loop succeeds after [m + 1] cycles. *)
Lemma attempts_converge m : forall steps last p l0,
  m < steps ->
  trace p = (base ++ l0)%list ->
  (forall l d, count_updates l < count_updates l0 + m ->
     exists e, Deployments_Update cs (base ++ l) ns d = Err e
               /\ IsConflict e = true) ->
  (forall l d, count_updates l = count_updates l0 + m ->
     exists r, Deployments_Update cs (base ++ l) ns d = Ok r) ->
  exists l,
    retry.attempts steps last (update_cycle cs ns name) p
    = (Return None, after_calls p l)
    /\ count_gets l = S m /\ count_updates l = S m /\ length l = 2 * S m.
Proof.
  induction m as [|m IH]; intros steps last p l0 Hlt Ht Hconf Hacc;
    (destruct steps as [|steps]; [lia|]);
    destruct (cycle_at p l0 Ht) as (d & Hcycle);
    cbn [retry.attempts]; unfold mbind, M_bind; rewrite Hcycle.
  - destruct (Hacc (l0 ++ [DeploymentsGet ns name])%list d) as (r & Hr).
    { rewrite count_updates_app. cbn. lia. }
    rewrite Hr. cbn [err_of].
    eexists. split; [reflexivity|]. repeat split.
  - destruct (Hconf (l0 ++ [DeploymentsGet ns name])%list d) as (e & He & Hc).
    { rewrite count_updates_app. cbn. lia. }
    rewrite He. cbn [err_of]. rewrite Hc.
    set (new := [DeploymentsGet ns name; DeploymentsUpdate ns d]).
    destruct (IH steps (Some e) (after_calls p new) (l0 ++ new)%list)
      as (l & Hrun & Hg & Hu & Hlen).
    + lia.
    + cbn. rewrite Ht, app_assoc. reflexivity.
    + intros l' d' Hl'. apply Hconf. rewrite count_updates_app in Hl'.
      cbn in Hl'. lia.
    + intros l' d' Hl'. apply Hacc. rewrite count_updates_app in Hl'.
      cbn in Hl'. lia.
    + exists (new ++ l)%list. rewrite Hrun, after_calls_app.
      split; [reflexivity|].
      rewrite count_gets_app, count_updates_app, length_app, Hg, Hu, Hlen.
      cbn. repeat split; lia.
Qed.

(** On a store that answers every update with a conflict the loop runs
    [steps] cycles and hands back the last conflict. *)
Lemma attempts_exhaust steps : forall last p l0,
  trace p = (base ++ l0)%list ->
  (forall l d, exists e, Deployments_Update cs (base ++ l) ns d = Err e
                         /\ IsConflict e = true) ->
  exists l last',
    retry.attempts steps last (update_cycle cs ns name) p
    = (Return last', after_calls p l)
    /\ count_gets l = steps /\ count_updates l = steps /\ length l = 2 * steps
    /\ match steps with
       | O => last' = last
       | S _ => exists e, last' = Some e /\ IsConflict e = true
       end.
Proof.
  induction steps as [|steps IH]; intros last p l0 Ht Hconf.
  - exists [], last. cbn. unfold after_calls. rewrite app_nil_r.
    destruct p; repeat split.
  - destruct (cycle_at p l0 Ht) as (d & Hcycle).
    cbn [retry.attempts]. unfold mbind, M_bind. rewrite Hcycle.
    destruct (Hconf (l0 ++ [DeploymentsGet ns name])%list d) as (e & He & Hc).
    rewrite He. cbn [err_of]. rewrite Hc.
    set (new := [DeploymentsGet ns name; DeploymentsUpdate ns d]).
    destruct (IH (Some e) (after_calls p new) (l0 ++ new)%list)
      as (l & last' & Hrun & Hg & Hu & Hlen & Hlast).
    + cbn. rewrite Ht, app_assoc. reflexivity.
    + exact Hconf.
    + exists (new ++ l)%list, last'. rewrite Hrun, after_calls_app.
      split; [reflexivity|].
      rewrite count_gets_app, count_updates_app, length_app, Hg, Hu, Hlen.
      cbn. repeat split; try lia.
      destruct steps; [subst last'; eauto | exact Hlast].
Qed.

End Retry.

(** C1. Conflict-retry convergence: for every [k] below the retry
    budget, on a store whose fetches succeed, that rejects the first [k]
    update submissions of the operation with a version conflict and
    accepts the next one, the update request succeeds after exactly
    [k + 1] fetch/mutate/submit cycles: [k + 1] gets and [k + 1]
    updates, and nothing else, are sent to the store. *)
Theorem conflict_retry_convergence cs p req k :
  let ns := PathParameter req "namespace-name" in
  let name := PathParameter req "deployment-name" in
  k < retry.Steps retry.DefaultRetry ->
  (forall l, exists d,
     Deployments_Get cs (trace p ++ l) ns name = Ok d /\ containers_of d <> []) ->
  (forall l d, count_updates l < k ->
     exists e, Deployments_Update cs (trace p ++ l) ns d = Err e
               /\ IsConflict e = true) ->
  (forall l d, count_updates l = k ->
     exists r, Deployments_Update cs (trace p ++ l) ns d = Ok r) ->
  exists l,
    fst (serve cs PATCH_update req p) = Return tt
    /\ trace (snd (serve cs PATCH_update req p)) = (trace p ++ l)%list
    /\ count_gets l = k + 1
    /\ count_updates l = k + 1
    /\ length l = 2 * (k + 1)
    /\ resp (snd (serve cs PATCH_update req p))
       = {| statusCode := Some 200%Z; body := "Updated deployment..." |}.
Proof.
  intros ns name Hk Hget Hconf Hacc.
  unfold serve. cbn [handler]. unfold UpdateDeployment. fold ns name.
  unfold retry.RetryOnConflict, fmt_Println, print, mbind, M_bind.
  cbn [deployment trace stdout resp].
  match goal with |- context [retry.attempts _ _ _ ?q] =>
    destruct (attempts_converge cs ns name (trace p) Hget k
                (retry.Steps retry.DefaultRetry) None q [] Hk)
      as (l & Hrun & Hg & Hu & Hlen)
  end.
  - cbn. rewrite app_nil_r. reflexivity.
  - intros l d Hl. apply Hconf. exact Hl.
  - intros l d Hl. apply Hacc. exact Hl.
  - rewrite Hrun. exists l. cbn.
    repeat split; try reflexivity; lia.
Qed.

Lemma conflict_retry_convergence_witness :
  let cs := conflicting_store 3 demo_deployment in
  let req := request demo_path EntityNull in
  exists l,
    fst (serve cs PATCH_update req started) = Return tt
    /\ trace (snd (serve cs PATCH_update req started)) = (trace started ++ l)%list
    /\ count_gets l = 3 + 1
    /\ count_updates l = 3 + 1
    /\ length l = 2 * (3 + 1)
    /\ resp (snd (serve cs PATCH_update req started))
       = {| statusCode := Some 200%Z; body := "Updated deployment..." |}.
Proof.
  intros cs req.
  apply (conflict_retry_convergence cs started req 3).
  - cbn. lia.
  - intros l. exists demo_deployment. split; [reflexivity | discriminate].
  - intros l d Hl. exists conflict. split; [|reflexivity].
    cbn -[Nat.ltb count_updates].
    destruct (Nat.ltb_spec (count_updates l) 3); [reflexivity | lia].
  - intros l d Hl. exists d.
    cbn -[Nat.ltb count_updates].
    destruct (Nat.ltb_spec (count_updates l) 3); [lia | reflexivity].
Defined.

(** C2. Conflict-retry exhaustion: on a store whose fetches succeed and
    that rejects every update submission with a version conflict, the
    update request stops after exactly as many cycles as the retry
    budget allows (5 gets and 5 updates) and fails: the handler panics
    with the error "Update failed: " followed by the text of a conflict
    error, and writes no response. *)
Theorem conflict_retry_exhaustion cs p req :
  let ns := PathParameter req "namespace-name" in
  let name := PathParameter req "deployment-name" in
  (forall l, exists d,
     Deployments_Get cs (trace p ++ l) ns name = Ok d /\ containers_of d <> []) ->
  (forall l d, exists e, Deployments_Update cs (trace p ++ l) ns d = Err e
                         /\ IsConflict e = true) ->
  exists l e,
    fst (serve cs PATCH_update req p)
    = Panic (PanicError (errorString ("Update failed: " ++ Error e)))
    /\ IsConflict e = true
    /\ trace (snd (serve cs PATCH_update req p)) = (trace p ++ l)%list
    /\ count_gets l = retry.Steps retry.DefaultRetry
    /\ count_updates l = retry.Steps retry.DefaultRetry
    /\ length l = 2 * retry.Steps retry.DefaultRetry
    /\ retry.Steps retry.DefaultRetry = 5
    /\ resp (snd (serve cs PATCH_update req p)) = Response_zero.
Proof.
  intros ns name Hget Hconf.
  unfold serve. cbn [handler]. unfold UpdateDeployment. fold ns name.
  unfold retry.RetryOnConflict, fmt_Println, print, mbind, M_bind.
  cbn [deployment trace stdout resp].
  match goal with |- context [retry.attempts _ _ _ ?q] =>
    destruct (attempts_exhaust cs ns name (trace p) Hget
                (retry.Steps retry.DefaultRetry) None q [])
      as (l & last' & Hrun & Hg & Hu & Hlen & e & -> & He)
  end.
  - cbn. rewrite app_nil_r. reflexivity.
  - exact Hconf.
  - rewrite Hrun. exists l, e. cbn.
    repeat split; try reflexivity; try assumption.
Qed.

Lemma conflict_retry_exhaustion_witness :
  let cs := always_conflicting_store demo_deployment in
  let req := request demo_path EntityNull in
  exists l e,
    fst (serve cs PATCH_update req started)
    = Panic (PanicError (errorString ("Update failed: " ++ Error e)))
    /\ IsConflict e = true
    /\ trace (snd (serve cs PATCH_update req started)) = (trace started ++ l)%list
    /\ count_gets l = retry.Steps retry.DefaultRetry
    /\ count_updates l = retry.Steps retry.DefaultRetry
    /\ length l = 2 * retry.Steps retry.DefaultRetry
    /\ retry.Steps retry.DefaultRetry = 5
    /\ resp (snd (serve cs PATCH_update req started)) = Response_zero.
Proof.
  intros cs req.
  apply (conflict_retry_exhaustion cs started req).
  - intros l. exists demo_deployment. split; [reflexivity | discriminate].
  - intros l d. exists conflict. split; reflexivity.
Defined.

(** ** Runs on the simulated stores *)

Example RemoveNonAlphanumericChars_nginx :
  RemoveNonAlphanumericChars "nginx:1.12" = "nginx112".
Proof. reflexivity. Qed.

Example RemoveNonAlphanumericChars_registry :
  RemoveNonAlphanumericChars "gcr.io/my-proj/web_app:v2" = "gcriomyprojwebappv2".
Proof. reflexivity. Qed.

Example create_then_list :
  let cs := conflicting_store 0 demo_deployment in
  let create := request [] (EntityObject {| Image := "nginx:1.12"; Namespace := "demo" |}) in
  let p := snd (serve cs POST_create create started) in
  resp p = {| statusCode := Some 200%Z; body := "Created deployment nginx112" |}
  /\ resp (snd (serve cs GET_list (request demo_path EntityNull) p))
     = {| statusCode := Some 200%Z; body := "nginx112 2" ++ newline |}.
Proof. vm_compute. split; reflexivity. Qed.

Example update_after_two_conflicts :
  let cs := conflicting_store 2 demo_deployment in
  let p := snd (serve cs PATCH_update (request demo_path EntityNull) started) in
  map is_get (trace p) = [true; false; true; false; true; false]
  /\ map is_update (trace p) = [false; true; false; true; false; true]
  /\ resp p = {| statusCode := Some 200%Z; body := "Updated deployment..." |}.
Proof. vm_compute. repeat split; reflexivity. Qed.

Example update_with_nil_body_on_empty_containers :
  let stored := with_spec (with_template (set_Containers [])) demo_deployment in
  let cs := conflicting_store 0 stored in
  fst (serve cs PATCH_update (request demo_path EntityNull) started)
  = Panic IndexOutOfRange.
Proof. reflexivity. Qed.

Example create_with_null_body :
  fst (serve (conflicting_store 0 demo_deployment) POST_create
         (request [] EntityNull) started)
  = Panic NilPointerDereference.
Proof. reflexivity. Qed.

Example delete_success :
  let cs := conflicting_store 0 demo_deployment in
  resp (snd (serve cs DELETE_delete (request demo_path EntityNull) started))
  = {| statusCode := Some 200%Z; body := "Deleted deployment." |}.
Proof. reflexivity. Qed.

(** * Further properties *)

(** ** Name derivation *)

Lemma list_ascii_of_string_app (a b : string) :
  list_ascii_of_string (a ++ b)
  = (list_ascii_of_string a ++ list_ascii_of_string b)%list.
Proof.
  induction a as [|x a IH]; [reflexivity|].
  change (x :: list_ascii_of_string (a ++ b)
          = x :: (list_ascii_of_string a ++ list_ascii_of_string b)%list).
  rewrite IH. reflexivity.
Qed.

Lemma string_of_list_ascii_app (l1 l2 : list ascii) :
  string_of_list_ascii (l1 ++ l2)
  = string_of_list_ascii l1 ++ string_of_list_ascii l2.
Proof.
  induction l1 as [|x l1 IH]; [reflexivity|].
  change (String x (string_of_list_ascii (l1 ++ l2))
          = String x (string_of_list_ascii l1 ++ string_of_list_ascii l2)).
  rewrite IH. reflexivity.
Qed.

Lemma filter_all {A} (f : A -> bool) (l : list A) :
  Forall (fun a => f a = true) l -> List.filter f l = l.
Proof.
  induction 1 as [|a l Ha _ IH]; cbn; [reflexivity|].
  rewrite Ha, IH. reflexivity.
Qed.

Lemma filter_length_le {A} (f : A -> bool) (l : list A) :
  length (List.filter f l) <= length l.
Proof.
  induction l as [|a l IH]; cbn; [lia|]. destruct (f a); cbn; lia.
Qed.

Lemma filter_nil_iff {A} (f : A -> bool) (l : list A) :
  List.filter f l = [] <-> Forall (fun a => f a = false) l.
Proof.
  induction l as [|a l IH]; cbn.
  - split; [constructor | reflexivity].
  - destruct (f a) eqn:E; split.
    + discriminate.
    + intros H. inversion H; congruence.
    + intros H. constructor; [exact E | apply IH, H].
    + intros H. inversion H. apply IH. assumption.
Qed.

Lemma RemoveNonAlphanumericChars_app (a b : string) :
  RemoveNonAlphanumericChars (a ++ b)
  = RemoveNonAlphanumericChars a ++ RemoveNonAlphanumericChars b.
Proof.
  rewrite !RemoveNonAlphanumericChars_strip. unfold strip_non_alnum.
  rewrite list_ascii_of_string_app, List.filter_app.
  apply string_of_list_ascii_app.
Qed.

(** X1. The derived name of a concatenation is the concatenation of the
    derived names, although a run of stripped characters may straddle
    the seam. *)
Theorem name_of_concatenation (a b : string) :
  RemoveNonAlphanumericChars (a ++ b)
  = RemoveNonAlphanumericChars a ++ RemoveNonAlphanumericChars b.
Proof. apply RemoveNonAlphanumericChars_app. Qed.

(** X2. The strings the derivation leaves unchanged are exactly those made
    of characters of [[a-zA-Z0-9]] only. *)
Theorem name_unchanged_iff_alnum (s : string) :
  RemoveNonAlphanumericChars s = s <-> only_alnum s.
Proof.
  rewrite RemoveNonAlphanumericChars_strip. split.
  - intros H. rewrite <- H. apply strip_non_alnum_only_alnum.
  - intros H. unfold strip_non_alnum. rewrite (filter_all _ _ H).
    apply string_of_list_ascii_of_string.
Qed.

(** X3. The derived name is never longer than the image, and it is empty
    exactly when the image has no character of [[a-zA-Z0-9]]. *)
Theorem name_length_and_emptiness (s : string) :
  String.length (RemoveNonAlphanumericChars s) <= String.length s
  /\ (RemoveNonAlphanumericChars s = ""
      <-> Forall (fun c => is_alnum c = false) (list_ascii_of_string s)).
Proof.
  rewrite RemoveNonAlphanumericChars_strip. unfold strip_non_alnum. split.
  - rewrite !String_length_list, list_ascii_of_string_of_list_ascii.
    apply filter_length_le.
  - rewrite <- filter_nil_iff. split.
    + intros H. apply (f_equal list_ascii_of_string) in H.
      rewrite list_ascii_of_string_of_list_ascii in H. exact H.
    + intros ->. reflexivity.
Qed.

(** X4. Images that differ by a character outside [[a-zA-Z0-9]], wherever it
    stands, derive the same name. *)
Theorem name_ignores_stripped_character (a b : string) (c : ascii) :
  is_alnum c = false ->
  RemoveNonAlphanumericChars (a ++ String c b)
  = RemoveNonAlphanumericChars (a ++ b).
Proof.
  intros Hc. rewrite !RemoveNonAlphanumericChars_app. f_equal.
  rewrite !RemoveNonAlphanumericChars_strip. unfold strip_non_alnum.
  cbn [list_ascii_of_string List.filter]. rewrite Hc. reflexivity.
Qed.

Lemma name_ignores_stripped_character_witness :
  is_alnum ":"%char = false
  /\ RemoveNonAlphanumericChars ("nginx" ++ String ":"%char "1.12")
     = RemoveNonAlphanumericChars ("nginx" ++ "1.12").
Proof.
  split; [reflexivity|].
  apply (name_ignores_stripped_character "nginx" "1.12" ":"%char).
  reflexivity.
Defined.

(** ** The create path, in closed form *)

Lemma fill_template_of info name namespace label image :
  fill_template info {| metav1.MatchLabels := {[ "app" := label ]} |}
    (web_container image) [] (template_of name namespace label image)
  = created_deployment (Image info) (Namespace info).
Proof.
  unfold fill_template, created_deployment, template_of, with_meta, with_spec,
    with_template, with_template_meta, set_Selector, set_Label, set_Name,
    set_Namespace, set_Containers, set_Image, web_container.
  cbn. rewrite !insert_singleton_eq. reflexivity.
Qed.

Lemma Canonical_started : Canonical started.
Proof. exists "demo-deployment", "", "demo", "nginx:1.12". reflexivity. Qed.

Lemma CreateDeployment_canonical cs req p info name namespace label image :
  fst (ReadEntity req (Some DeploymentInfo_zero)) = Some info ->
  deployment p = Some (template_of name namespace label image) ->
  let d := created_deployment (Image info) (Namespace info) in
  deployment (snd (CreateDeployment cs req p)) = Some d
  /\ trace (snd (CreateDeployment cs req p))
     = (trace p ++ [NamespacesCreate (namespace_named (Namespace info));
                    DeploymentsCreate (Namespace info) d])%list.
Proof.
  intros He Hd d.
  rewrite (CreateDeployment_run cs req p info _
             {| metav1.MatchLabels := {[ "app" := label ]} |}
             (web_container image) [] He Hd eq_refl eq_refl).
  rewrite fill_template_of. fold d. cbv zeta.
  destruct (Deployments_Create cs _ _ _); cbn [snd deployment trace];
    rewrite <- app_assoc; split; reflexivity.
Qed.

Lemma Canonical_serve cs r req p : Canonical p -> Canonical (snd (serve cs r req p)).
Proof.
  intros (name & namespace & label & image & Hd). unfold serve.
  set (p0 := {| deployment := deployment p; trace := trace p;
                stdout := stdout p; resp := Response_zero |}).
  assert (Hd0 : deployment p0 = Some (template_of name namespace label image))
    by exact Hd.
  assert (Hkeep : forall m : M unit, frames m -> Canonical (snd (m p0))).
  { intros m Hm. destruct (Hm p0) as [Hsame _].
    exists name, namespace, label, image. rewrite Hsame. exact Hd0. }
  destruct r; cbn [handler].
  - apply Hkeep, frames_ListDeployment.
  - destruct (fst (ReadEntity req (Some DeploymentInfo_zero))) as [info|] eqn:He.
    + destruct (CreateDeployment_canonical cs req p0 info _ _ _ _ He Hd0)
        as [Hd' _].
      eexists _, _, _, _. exact Hd'.
    + rewrite (CreateDeployment_nil cs req p0 He).
      exists name, namespace, label, image. exact Hd0.
  - apply Hkeep, frames_UpdateDeployment.
  - apply Hkeep, frames_DeleteDeployment.
Qed.

Lemma Reachable_Canonical cs p : Reachable cs p -> Canonical p.
Proof.
  induction 1 as [|r req p _ IH];
    [apply Canonical_started | apply Canonical_serve, IH].
Qed.

Lemma serve_create_canonical cs p req i n :
  Reachable cs p ->
  entity req = EntityObject {| Image := i; Namespace := n |} ->
  trace (snd (serve cs POST_create req p))
  = (trace p ++ [NamespacesCreate (namespace_named n);
                 DeploymentsCreate n (created_deployment i n)])%list
  /\ deployment (snd (serve cs POST_create req p)) = Some (created_deployment i n).
Proof.
  intros Hr He.
  destruct (Reachable_Canonical cs p Hr) as (name & namespace & label & image & Hd).
  assert (He' : fst (ReadEntity req (Some DeploymentInfo_zero))
                = Some {| Image := i; Namespace := n |}).
  { unfold ReadEntity. rewrite He. reflexivity. }
  unfold serve. cbn [handler].
  destruct (CreateDeployment_canonical cs req
              {| deployment := deployment p; trace := trace p;
                 stdout := stdout p; resp := Response_zero |}
              _ _ _ _ _ He' Hd) as [Hd' Ht].
  split; [exact Ht | exact Hd'].
Qed.

Lemma last_pair {A} (l : list A) (a b : A) : last (l ++ [a; b]) = Some b.
Proof. change [a; b] with ([a] ++ [b])%list. rewrite app_assoc. apply last_snoc. Qed.

(** X5. The global template carries nothing from one request to the next:
    in every reachable state a create request for image [i] in namespace
    [n] submits exactly [created_deployment i n], and leaves that object
    as the template, whatever was created (or failed to be) before. *)
Theorem create_is_history_independent cs p req i n :
  Reachable cs p ->
  entity req = EntityObject {| Image := i; Namespace := n |} ->
  trace (snd (serve cs POST_create req p))
  = (trace p ++ [NamespacesCreate (namespace_named n);
                 DeploymentsCreate n (created_deployment i n)])%list
  /\ deployment (snd (serve cs POST_create req p)) = Some (created_deployment i n).
Proof. apply serve_create_canonical. Qed.

Lemma create_is_history_independent_witness :
  let cs := always_conflicting_store demo_deployment in
  let first := request [] (EntityObject {| Image := "redis:7"; Namespace := "cache" |}) in
  let req := request [] (EntityObject {| Image := "nginx:1.12"; Namespace := "demo" |}) in
  let p := snd (serve cs POST_create first started) in
  trace (snd (serve cs POST_create req p))
  = (trace p ++ [NamespacesCreate (namespace_named "demo");
                 DeploymentsCreate "demo" (created_deployment "nginx:1.12" "demo")])%list
  /\ deployment (snd (serve cs POST_create req p))
     = Some (created_deployment "nginx:1.12" "demo").
Proof.
  intros cs first req p.
  apply (create_is_history_independent cs p req "nginx:1.12" "demo").
  - apply Reachable_serve, Reachable_started.
  - reflexivity.
Defined.

(** X6. Name collision: in reachable states, create requests whose images
    derive the same name submit, in a given namespace, deployments with
    the same identity (namespace and name) and the same labels, although
    their images differ. *)
Theorem create_name_collision cs p1 p2 req1 req2 i1 i2 n :
  Reachable cs p1 -> Reachable cs p2 ->
  entity req1 = EntityObject {| Image := i1; Namespace := n |} ->
  entity req2 = EntityObject {| Image := i2; Namespace := n |} ->
  RemoveNonAlphanumericChars i1 = RemoveNonAlphanumericChars i2 ->
  exists d1 d2,
    last (trace (snd (serve cs POST_create req1 p1))) = Some (DeploymentsCreate n d1)
    /\ last (trace (snd (serve cs POST_create req2 p2))) = Some (DeploymentsCreate n d2)
    /\ name_of d1 = name_of d2
    /\ namespace_of d1 = namespace_of d2
    /\ selector_labels d1 = selector_labels d2
    /\ template_labels d1 = template_labels d2
    /\ map apiv1.Image (containers_of d1) = [i1]
    /\ map apiv1.Image (containers_of d2) = [i2].
Proof.
  intros Hr1 Hr2 He1 He2 Hname.
  destruct (serve_create_canonical cs p1 req1 i1 n Hr1 He1) as [Ht1 _].
  destruct (serve_create_canonical cs p2 req2 i2 n Hr2 He2) as [Ht2 _].
  exists (created_deployment i1 n), (created_deployment i2 n).
  rewrite Ht1, Ht2.
  split; [apply last_pair|]. split; [apply last_pair|].
  unfold created_deployment. rewrite Hname. repeat split.
Qed.

Lemma create_name_collision_witness :
  let cs := conflicting_store 0 demo_deployment in
  let req1 := request [] (EntityObject {| Image := "nginx:1.12"; Namespace := "demo" |}) in
  let req2 := request [] (EntityObject {| Image := "nginx1:12"; Namespace := "demo" |}) in
  exists d1 d2,
    last (trace (snd (serve cs POST_create req1 started)))
    = Some (DeploymentsCreate "demo" d1)
    /\ last (trace (snd (serve cs POST_create req2 started)))
       = Some (DeploymentsCreate "demo" d2)
    /\ name_of d1 = name_of d2
    /\ namespace_of d1 = namespace_of d2
    /\ selector_labels d1 = selector_labels d2
    /\ template_labels d1 = template_labels d2
    /\ map apiv1.Image (containers_of d1) = ["nginx:1.12"]
    /\ map apiv1.Image (containers_of d2) = ["nginx1:12"].
Proof.
  intros cs req1 req2.
  apply (create_name_collision cs started started req1 req2
           "nginx:1.12" "nginx1:12" "demo").
  - apply Reachable_started.
  - apply Reachable_started.
  - reflexivity.
  - reflexivity.
  - reflexivity.
Defined.

Lemma serve_create_eq cs p req i n :
  Reachable cs p ->
  entity req = EntityObject {| Image := i; Namespace := n |} ->
  let d := created_deployment i n in
  let h := (trace p ++ [NamespacesCreate (namespace_named n)])%list in
  serve cs POST_create req p =
  match Deployments_Create cs h n d with
  | Ok result =>
      (Return tt,
       {| deployment := Some d;
          trace := h ++ [DeploymentsCreate n d];
          stdout := (stdout p ++ [Println "Creating deployment..."])
                    ++ [Printf ("Created deployment %q." ++ newline)
                          [ArgString (name_of result)]];
          resp := {| statusCode := Some 200%Z;
                     body := "Created deployment " ++ name_of result |} |})
  | Err err =>
      (Panic (PanicError err),
       {| deployment := Some d;
          trace := h ++ [DeploymentsCreate n d];
          stdout := stdout p ++ [Println "Creating deployment..."];
          resp := Response_zero |})
  end.
Proof.
  intros Hr He d h.
  destruct (Reachable_Canonical cs p Hr) as (name & namespace & label & image & Hd).
  assert (He' : fst (ReadEntity req (Some DeploymentInfo_zero))
                = Some {| Image := i; Namespace := n |}).
  { unfold ReadEntity. rewrite He. reflexivity. }
  unfold serve. cbn [handler].
  rewrite (CreateDeployment_run cs req
             {| deployment := deployment p; trace := trace p;
                stdout := stdout p; resp := Response_zero |}
             _ _ {| metav1.MatchLabels := {[ "app" := label ]} |}
             (web_container image) [] He' Hd eq_refl eq_refl).
  rewrite fill_template_of. reflexivity.
Qed.

(** X7. A create request the store refuses: in a reachable state, when the
    deployment-create call fails the handler panics with the store's
    error, writes nothing to the response, and has nevertheless
    overwritten the global template with the refused deployment. *)
Theorem create_failure cs p req i n err :
  Reachable cs p ->
  entity req = EntityObject {| Image := i; Namespace := n |} ->
  Deployments_Create cs (trace p ++ [NamespacesCreate (namespace_named n)]) n
    (created_deployment i n) = Err err ->
  fst (serve cs POST_create req p) = Panic (PanicError err)
  /\ resp (snd (serve cs POST_create req p)) = Response_zero
  /\ deployment (snd (serve cs POST_create req p)) = Some (created_deployment i n).
Proof.
  intros Hr He Hc. rewrite (serve_create_eq cs p req i n Hr He).
  cbv zeta. rewrite Hc. repeat split.
Qed.

Lemma create_failure_witness :
  let refusing :=
    {| Namespaces_Create := λ _ ns, Ok ns;
       Deployments_Create := λ _ _ _, Err (StatusError StatusReasonInvalid "name required");
       Deployments_Get := λ _ _ _, Ok demo_deployment;
       Deployments_Update := λ _ _ d, Ok d;
       Deployments_List := λ _ _, Ok [];
       Deployments_Delete := λ _ _ _ _, None |} in
  let req := request [] (EntityObject {| Image := "::"; Namespace := "demo" |}) in
  fst (serve refusing POST_create req started)
  = Panic (PanicError (StatusError StatusReasonInvalid "name required"))
  /\ resp (snd (serve refusing POST_create req started)) = Response_zero
  /\ deployment (snd (serve refusing POST_create req started))
     = Some (created_deployment "::" "demo").
Proof.
  intros refusing req.
  apply (create_failure refusing started req "::" "demo").
  - apply Reachable_started.
  - reflexivity.
  - reflexivity.
Defined.

(** X8. A create request whose body is the JSON literal null: the handler
    dereferences the nil pointer and panics before any call to the store;
    the template and the response are untouched, in any state. *)
Theorem create_null_body cs p req :
  entity req = EntityNull ->
  fst (serve cs POST_create req p) = Panic NilPointerDereference
  /\ trace (snd (serve cs POST_create req p)) = trace p
  /\ deployment (snd (serve cs POST_create req p)) = deployment p
  /\ resp (snd (serve cs POST_create req p)) = Response_zero.
Proof.
  intros He. unfold serve. cbn [handler].
  rewrite CreateDeployment_nil; [repeat split|].
  unfold ReadEntity. rewrite He. reflexivity.
Qed.

Lemma create_null_body_witness :
  let cs := conflicting_store 0 demo_deployment in
  let req := request [] EntityNull in
  fst (serve cs POST_create req started) = Panic NilPointerDereference
  /\ trace (snd (serve cs POST_create req started)) = trace started
  /\ deployment (snd (serve cs POST_create req started)) = deployment started
  /\ resp (snd (serve cs POST_create req started)) = Response_zero.
Proof.
  intros cs req. apply (create_null_body cs started req). reflexivity.
Defined.

(** ** The update path on an arbitrary store *)

Lemma update_cycle_cases cs ns name p :
  update_cycle cs ns name p =
  match Deployments_Get cs (trace p) ns name with
  | Err getErr =>
      (Panic (PanicError
                (Errorf "Failed to get latest version of Deployment: " getErr)),
       after_calls p [DeploymentsGet ns name])
  | Ok d =>
      match containers_of d with
      | [] => (Panic IndexOutOfRange, after_calls p [DeploymentsGet ns name])
      | c :: rest =>
          (Return (err_of (Deployments_Update cs
                             (trace p ++ [DeploymentsGet ns name]) ns
                             (mutated d c rest))),
           after_calls p [DeploymentsGet ns name;
                          DeploymentsUpdate ns (mutated d c rest)])
      end
  end.
Proof.
  destruct (Deployments_Get cs (trace p) ns name) as [d|getErr] eqn:Hg.
  - destruct (containers_of d) as [|c rest] eqn:Hc.
    + destruct p as [dep tr so rs]. cbn [trace] in Hg. unfold update_cycle.
      cbv beta iota zeta delta
        [mbind M_bind mret M_ret record_call apps_Deployments_Get
         deployment trace stdout resp].
      rewrite Hg. destruct d as [meta [reps sel [tmeta [cs0]]]].
      cbn in Hc. subst cs0. reflexivity.
    + apply update_cycle_run; assumption.
  - destruct p as [dep tr so rs]. cbn [trace] in Hg. unfold update_cycle.
    cbv beta iota zeta delta
      [mbind M_bind mret M_ret record_call apps_Deployments_Get
       deployment trace stdout resp].
    rewrite Hg. reflexivity.
Qed.

Lemma after_calls_nil p : after_calls p [] = p.
Proof. unfold after_calls. rewrite app_nil_r. destruct p; reflexivity. Qed.

Lemma mutated_fixed ns d c rest : fixed_update (DeploymentsUpdate ns (mutated d c rest)).
Proof. destruct d as [meta [reps sel [tmeta [cs0]]]]. split; reflexivity. Qed.

(** The loop on any store: at most [steps] cycles, gets and updates in
    alternation, and a nil error only after an update the store
    accepted. *)
Lemma attempts_general cs ns name steps : forall last p,
  exists l,
    snd (retry.attempts steps last (update_cycle cs ns name) p) = after_calls p l
    /\ count_gets l <= steps
    /\ (0 < steps -> 1 <= count_gets l)
    /\ count_updates l <= count_gets l <= count_updates l + 1
    /\ Forall (cycle_call ns name) l
    /\ (fst (retry.attempts steps last (update_cycle cs ns name) p) = Return None ->
        (l = [] /\ last = None)
        \/ exists l0 d r,
             l = (l0 ++ [DeploymentsUpdate ns d])%list
             /\ Deployments_Update cs (trace p ++ l0) ns d = Ok r).
Proof.
  induction steps as [|steps IH]; intros last p.
  - exists []. cbn. rewrite after_calls_nil.
    repeat split; try lia; [constructor|].
    intros [= ->]. left. split; reflexivity.
  - cbn [retry.attempts]. unfold mbind, M_bind. rewrite update_cycle_cases.
    destruct (Deployments_Get cs (trace p) ns name) as [d|getErr].
    2:{ exists [DeploymentsGet ns name]. cbn.
        repeat split; try lia; [|discriminate].
        constructor; [left; reflexivity | constructor]. }
    destruct (containers_of d) as [|c rest].
    { exists [DeploymentsGet ns name]. cbn.
      repeat split; try lia; [|discriminate].
      constructor; [left; reflexivity | constructor]. }
    set (d' := mutated d c rest).
    set (new := [DeploymentsGet ns name; DeploymentsUpdate ns d']).
    assert (Hnew : Forall (cycle_call ns name) new).
    { constructor; [left; reflexivity|].
      constructor; [|constructor]. right. exists d'.
      split; [reflexivity | apply mutated_fixed]. }
    destruct (Deployments_Update cs _ ns d') as [r|e] eqn:Hu; cbn [err_of].
    + exists new. cbn. repeat split; try lia; [exact Hnew|].
      intros _. right. exists [DeploymentsGet ns name], d', r.
      split; [reflexivity | exact Hu].
    + destruct (IsConflict e).
      * destruct (IH (Some e) (after_calls p new))
          as (l & Hs & Hle & _ & Halt & Hall & Hok).
        exists (new ++ l)%list. rewrite Hs, after_calls_app.
        rewrite count_gets_app, count_updates_app.
        change (count_gets new) with 1. change (count_updates new) with 1.
        repeat split; try lia.
        -- apply Forall_app. split; assumption.
        -- intros Ho. destruct (Hok Ho) as [[_ Hn]|(l0 & d0 & r0 & -> & Hacc)];
             [discriminate|].
           right. exists (new ++ l0)%list, d0, r0. split.
           ++ rewrite app_assoc. reflexivity.
           ++ cbn [after_calls trace] in Hacc. rewrite <- app_assoc in Hacc.
              exact Hacc.
      * exists new. cbn. repeat split; try lia; [exact Hnew | discriminate].
Qed.

Lemma UpdateDeployment_unfold cs req p :
  let ns := PathParameter req "namespace-name" in
  let name := PathParameter req "deployment-name" in
  let q := {| deployment := deployment p; trace := trace p;
              stdout := stdout p ++ [Println "Updating deployment..."];
              resp := resp p |} in
  UpdateDeployment cs req p =
  match retry.attempts (retry.Steps retry.DefaultRetry) None
          (update_cycle cs ns name) q with
  | (Return (Some e), q') => (Panic (PanicError (Errorf "Update failed: " e)), q')
  | (Return None, q') =>
      (Return tt,
       {| deployment := deployment q'; trace := trace q';
          stdout := stdout q' ++ [Println "Updated deployment..."];
          resp := Write "Updated deployment..." (resp q') |})
  | (Panic v, q') => (Panic v, q')
  end.
Proof.
  intros ns name q. unfold UpdateDeployment. fold ns name.
  unfold retry.RetryOnConflict, fmt_Println, print, io_WriteString, modify_resp,
    mbind, M_bind, panic.
  fold q.
  destruct (retry.attempts _ None (update_cycle cs ns name) q) as [[[e|]|v] q'];
    reflexivity.
Qed.

Lemma cycle_calls_length ns name l :
  Forall (cycle_call ns name) l -> length l = count_gets l + count_updates l.
Proof.
  induction 1 as [|c l Hc _ IH]; [reflexivity|].
  change (c :: l) with ([c] ++ l)%list.
  rewrite count_gets_app, count_updates_app, length_app, IH.
  destruct Hc as [->|(d & -> & _)]; cbn; lia.
Qed.

(** X10. No success without an accepted update: when an update request
    returns normally, the last call sent to the store is an update, with
    the fixed desired state, that the store accepted, and the response is
    the success text under status 200. *)
Theorem update_success_means_accepted cs p req :
  let ns := PathParameter req "namespace-name" in
  fst (serve cs PATCH_update req p) = Return tt ->
  exists l0 d r,
    trace (snd (serve cs PATCH_update req p))
    = (trace p ++ l0 ++ [DeploymentsUpdate ns d])%list
    /\ Deployments_Update cs (trace p ++ l0) ns d = Ok r
    /\ replicas_of d = Some 1%Z
    /\ apiv1.Image <$> head (containers_of d) = Some "nginx:1.13"
    /\ resp (snd (serve cs PATCH_update req p))
       = {| statusCode := Some 200%Z; body := "Updated deployment..." |}.
Proof.
  intros ns. unfold serve. cbn [handler].
  rewrite UpdateDeployment_unfold. cbv zeta. fold ns.
  match goal with |- context [retry.attempts ?s None ?c ?q] =>
    destruct (attempts_general cs ns (PathParameter req "deployment-name") s None q)
      as (l & Hs & _ & Hge & _ & Hall & Hok);
    destruct (retry.attempts s None c q) as [[[e|]|v] q']
  end; cbn [fst snd] in *; try discriminate.
  intros _. subst q'.
  destruct (Hok eq_refl) as [[-> _]|(l0 & d & r & -> & Hacc)].
  - cbn in Hge. unfold count_gets in Hge. cbn in Hge. lia.
  - exists l0, d, r. cbn [after_calls trace resp] in *.
    apply Forall_app in Hall as [_ Hd]. inversion Hd as [|? ? Hcall _]; subst.
    destruct Hcall as [Hget|(d' & [= <-] & Hrep & Himg)]; [discriminate|].
    repeat split; assumption.
Qed.

Lemma update_success_means_accepted_witness :
  let cs := conflicting_store 1 demo_deployment in
  let req := request demo_path EntityNull in
  exists l0 d r,
    trace (snd (serve cs PATCH_update req started))
    = (trace started ++ l0 ++ [DeploymentsUpdate "demo" d])%list
    /\ Deployments_Update cs (trace started ++ l0) "demo" d = Ok r
    /\ replicas_of d = Some 1%Z
    /\ apiv1.Image <$> head (containers_of d) = Some "nginx:1.13"
    /\ resp (snd (serve cs PATCH_update req started))
       = {| statusCode := Some 200%Z; body := "Updated deployment..." |}.
Proof.
  intros cs req.
  apply (update_success_means_accepted cs started req). reflexivity.
Defined.

Lemma serve_update_first cs req p :
  let ns := PathParameter req "namespace-name" in
  let name := PathParameter req "deployment-name" in
  let q := {| deployment := deployment p; trace := trace p;
              stdout := stdout p ++ [Println "Updating deployment..."];
              resp := Response_zero |} in
  serve cs PATCH_update req p =
  match (err ← update_cycle cs ns name;
         match err with
         | None => mret None
         | Some e =>
             if IsConflict e
             then retry.attempts 4 (Some e) (update_cycle cs ns name)
             else mret (Some e)
         end) q with
  | (Return (Some e), q') => (Panic (PanicError (Errorf "Update failed: " e)), q')
  | (Return None, q') =>
      (Return tt,
       {| deployment := deployment q'; trace := trace q';
          stdout := stdout q' ++ [Println "Updated deployment..."];
          resp := Write "Updated deployment..." (resp q') |})
  | (Panic v, q') => (Panic v, q')
  end.
Proof.
  intros ns name q. unfold serve. cbn [handler].
  rewrite UpdateDeployment_unfold. reflexivity.
Qed.

(** X11. A failed fetch is fatal at once: when the first get fails, whatever
    the error (a conflict included), the handler panics with
    "Failed to get latest version of Deployment: " and the error text;
    it has sent that one get and no update, and writes no response. *)
Theorem update_fetch_failure cs p req getErr :
  let ns := PathParameter req "namespace-name" in
  let name := PathParameter req "deployment-name" in
  Deployments_Get cs (trace p) ns name = Err getErr ->
  fst (serve cs PATCH_update req p)
  = Panic (PanicError (errorString
             ("Failed to get latest version of Deployment: " ++ Error getErr)))
  /\ trace (snd (serve cs PATCH_update req p)) = (trace p ++ [DeploymentsGet ns name])%list
  /\ resp (snd (serve cs PATCH_update req p)) = Response_zero.
Proof.
  intros ns name Hg. rewrite serve_update_first. cbv zeta. fold ns name.
  unfold mbind, M_bind. rewrite update_cycle_cases. cbn [trace].
  rewrite Hg. repeat split.
Qed.

Lemma update_fetch_failure_witness :
  let req := request demo_path EntityNull in
  fst (serve failing_delete_store PATCH_update req started)
  = Panic (PanicError (errorString
             ("Failed to get latest version of Deployment: "
              ++ Error (StatusError StatusReasonNotFound "not found"))))
  /\ trace (snd (serve failing_delete_store PATCH_update req started))
     = (trace started ++ [DeploymentsGet "demo" "nginx112"])%list
  /\ resp (snd (serve failing_delete_store PATCH_update req started)) = Response_zero.
Proof.
  intros req.
  apply (update_fetch_failure failing_delete_store started req
           (StatusError StatusReasonNotFound "not found")).
  reflexivity.
Defined.

(** X12. A fetched deployment without containers: the index expression
    panics (index out of range) after the get; no update is sent and no
    response written. *)
Theorem update_without_containers cs p req d :
  let ns := PathParameter req "namespace-name" in
  let name := PathParameter req "deployment-name" in
  Deployments_Get cs (trace p) ns name = Ok d ->
  containers_of d = [] ->
  fst (serve cs PATCH_update req p) = Panic IndexOutOfRange
  /\ trace (snd (serve cs PATCH_update req p)) = (trace p ++ [DeploymentsGet ns name])%list
  /\ resp (snd (serve cs PATCH_update req p)) = Response_zero.
Proof.
  intros ns name Hg Hc. rewrite serve_update_first. cbv zeta. fold ns name.
  unfold mbind, M_bind. rewrite update_cycle_cases. cbn [trace].
  rewrite Hg, Hc. repeat split.
Qed.

Lemma update_without_containers_witness :
  let stored := with_spec (with_template (set_Containers [])) demo_deployment in
  let cs := conflicting_store 0 stored in
  let req := request demo_path EntityNull in
  fst (serve cs PATCH_update req started) = Panic IndexOutOfRange
  /\ trace (snd (serve cs PATCH_update req started))
     = (trace started ++ [DeploymentsGet "demo" "nginx112"])%list
  /\ resp (snd (serve cs PATCH_update req started)) = Response_zero.
Proof.
  intros stored cs req.
  apply (update_without_containers cs started req stored); reflexivity.
Defined.

(** X13. An update error that is not a conflict is not retried: after one
    get and one update the handler panics with "Update failed: " and the
    error text, and writes no response. *)
Theorem update_other_error_not_retried cs p req d c rest e :
  let ns := PathParameter req "namespace-name" in
  let name := PathParameter req "deployment-name" in
  Deployments_Get cs (trace p) ns name = Ok d ->
  containers_of d = c :: rest ->
  Deployments_Update cs (trace p ++ [DeploymentsGet ns name]) ns (mutated d c rest)
  = Err e ->
  IsConflict e = false ->
  fst (serve cs PATCH_update req p)
  = Panic (PanicError (errorString ("Update failed: " ++ Error e)))
  /\ trace (snd (serve cs PATCH_update req p))
     = (trace p ++ [DeploymentsGet ns name; DeploymentsUpdate ns (mutated d c rest)])%list
  /\ resp (snd (serve cs PATCH_update req p)) = Response_zero.
Proof.
  intros ns name Hg Hc Hu He. rewrite serve_update_first. cbv zeta. fold ns name.
  unfold mbind, M_bind. rewrite update_cycle_cases. cbn [trace].
  rewrite Hg, Hc, Hu. cbn [err_of]. rewrite He. repeat split.
Qed.

Lemma update_other_error_not_retried_witness :
  let forbidden := StatusError StatusReasonForbidden "forbidden" in
  let cs :=
    {| Namespaces_Create := λ _ ns, Ok ns;
       Deployments_Create := λ _ _ d, Ok d;
       Deployments_Get := λ _ _ _, Ok demo_deployment;
       Deployments_Update := λ _ _ _, Err forbidden;
       Deployments_List := λ _ _, Ok [];
       Deployments_Delete := λ _ _ _ _, None |} in
  let req := request demo_path EntityNull in
  let c := {| apiv1.ContainerName := "web"; apiv1.Image := "nginx:1.12";
              apiv1.Ports := [] |} in
  fst (serve cs PATCH_update req started)
  = Panic (PanicError (errorString ("Update failed: " ++ Error forbidden)))
  /\ trace (snd (serve cs PATCH_update req started))
     = (trace started
        ++ [DeploymentsGet "demo" "nginx112";
            DeploymentsUpdate "demo" (mutated demo_deployment c [])])%list
  /\ resp (snd (serve cs PATCH_update req started)) = Response_zero.
Proof.
  intros forbidden cs req c.
  apply (update_other_error_not_retried cs started req demo_deployment c []
           forbidden); reflexivity.
Defined.

(** X14. What one cycle changes and what it keeps: the object submitted has
    the metadata of the fetched one (name, namespace, labels and the
    version token), its selector, its pod template metadata, its
    containers after the first, and the first container's name and
    ports; only the replica count (1) and the first image ("nginx:1.13")
    are new.  The cycle returns the error of the update, nil if any. *)
Theorem update_cycle_keeps_the_rest cs ns name p d c rest :
  Deployments_Get cs (trace p) ns name = Ok d ->
  containers_of d = c :: rest ->
  exists d',
    trace (snd (update_cycle cs ns name p))
    = (trace p ++ [DeploymentsGet ns name; DeploymentsUpdate ns d'])%list
    /\ fst (update_cycle cs ns name p)
       = Return (err_of (Deployments_Update cs
                           (trace p ++ [DeploymentsGet ns name]) ns d'))
    /\ appsv1.ObjectMeta d' = appsv1.ObjectMeta d
    /\ appsv1.Selector (appsv1.Spec d') = appsv1.Selector (appsv1.Spec d)
    /\ apiv1.ObjectMeta (appsv1.Template (appsv1.Spec d'))
       = apiv1.ObjectMeta (appsv1.Template (appsv1.Spec d))
    /\ replicas_of d' = Some 1%Z
    /\ containers_of d'
       = {| apiv1.ContainerName := apiv1.ContainerName c;
            apiv1.Image := "nginx:1.13";
            apiv1.Ports := apiv1.Ports c |} :: rest.
Proof.
  intros Hg Hc. exists (mutated d c rest).
  rewrite (update_cycle_run cs ns name p d c rest Hg Hc).
  destruct d as [meta [reps sel [tmeta [cs0]]]]. repeat split.
Qed.

Lemma update_cycle_keeps_the_rest_witness :
  let cs := conflicting_store 0 demo_deployment in
  let c := {| apiv1.ContainerName := "web"; apiv1.Image := "nginx:1.12";
              apiv1.Ports := [] |} in
  exists d',
    trace (snd (update_cycle cs "demo" "nginx112" started))
    = (trace started
       ++ [DeploymentsGet "demo" "nginx112"; DeploymentsUpdate "demo" d'])%list
    /\ fst (update_cycle cs "demo" "nginx112" started)
       = Return (err_of (Deployments_Update cs
                           (trace started ++ [DeploymentsGet "demo" "nginx112"])
                           "demo" d'))
    /\ appsv1.ObjectMeta d' = appsv1.ObjectMeta demo_deployment
    /\ appsv1.Selector (appsv1.Spec d') = appsv1.Selector (appsv1.Spec demo_deployment)
    /\ apiv1.ObjectMeta (appsv1.Template (appsv1.Spec d'))
       = apiv1.ObjectMeta (appsv1.Template (appsv1.Spec demo_deployment))
    /\ replicas_of d' = Some 1%Z
    /\ containers_of d'
       = {| apiv1.ContainerName := apiv1.ContainerName c;
            apiv1.Image := "nginx:1.13";
            apiv1.Ports := apiv1.Ports c |} :: [].
Proof.
  intros cs c.
  apply (update_cycle_keeps_the_rest cs "demo" "nginx112" started
           demo_deployment c []); reflexivity.
Defined.

(** ** The list path on a failing store *)

(** X15. When the store's list call fails, the list handler panics with the
    store's error after that one call and writes no response. *)
Theorem list_store_error cs p req err :
  let ns := PathParameter req "namespace-name" in
  Deployments_List cs (trace p) ns = Err err ->
  fst (serve cs GET_list req p) = Panic (PanicError err)
  /\ trace (snd (serve cs GET_list req p)) = (trace p ++ [DeploymentsList ns])%list
  /\ resp (snd (serve cs GET_list req p)) = Response_zero.
Proof.
  intros ns Hl. unfold serve. cbn [handler]. unfold ListDeployment. fold ns.
  destruct p as [dep tr so rs]. cbn [trace] in Hl.
  cbv beta iota zeta delta
    [mbind M_bind mret M_ret record_call print fmt_Printf apps_Deployments_List
     deployment trace stdout resp].
  rewrite Hl. repeat split.
Qed.

Lemma list_store_error_witness :
  let forbidden := StatusError StatusReasonForbidden "forbidden" in
  let cs :=
    {| Namespaces_Create := λ _ ns, Ok ns;
       Deployments_Create := λ _ _ d, Ok d;
       Deployments_Get := λ _ _ _, Ok demo_deployment;
       Deployments_Update := λ _ _ d, Ok d;
       Deployments_List := λ _ _, Err forbidden;
       Deployments_Delete := λ _ _ _ _, None |} in
  let req := request demo_path EntityNull in
  fst (serve cs GET_list req started) = Panic (PanicError forbidden)
  /\ trace (snd (serve cs GET_list req started))
     = (trace started ++ [DeploymentsList "demo"])%list
  /\ resp (snd (serve cs GET_list req started)) = Response_zero.
Proof.
  intros forbidden cs req.
  apply (list_store_error cs started req forbidden). reflexivity.
Defined.

(** ** All handlers, in any state *)

Lemma list_items_state : forall items buffer p,
  exists out,
    snd (list_items items buffer p)
    = {| deployment := deployment p; trace := trace p;
         stdout := stdout p ++ out; resp := resp p |}.
Proof.
  induction items as [|d items IH]; intros buffer p.
  - exists []. cbn. rewrite app_nil_r. destruct p; reflexivity.
  - destruct p as [dep tr so rs].
    cbn [list_items]. destruct (replicas_of d) as [n|].
    + cbv beta iota zeta delta
        [mbind M_bind mret M_ret deref fmt_Printf print
         deployment trace stdout resp].
      match goal with |- context [list_items items ?b ?q] =>
        destruct (IH b q) as [out Hout]; rewrite Hout end.
      eexists. cbn [deployment trace stdout resp].
      rewrite <- app_assoc. reflexivity.
    + exists []. cbn. rewrite app_nil_r. reflexivity.
Qed.

Lemma ListDeployment_any cs req p :
  let ns := PathParameter req "namespace-name" in
  trace (snd (ListDeployment cs req p)) = (trace p ++ [DeploymentsList ns])%list
  /\ deployment (snd (ListDeployment cs req p)) = deployment p
  /\ match fst (ListDeployment cs req p) with
     | Return _ => exists s, resp (snd (ListDeployment cs req p)) = Write s (resp p)
     | Panic _ => resp (snd (ListDeployment cs req p)) = resp p
     end.
Proof.
  intros ns. destruct (Deployments_List cs (trace p) ns) as [items|err] eqn:Hl.
  - rewrite (ListDeployment_listed cs req p items Hl). cbv zeta. fold ns.
    unfold mbind, M_bind.
    match goal with |- context [list_items items ?b ?q] =>
      destruct (list_items_state items b q) as [out Hout];
      destruct (list_items items b q) as [[buffer|v] q'] end;
      cbn [snd] in Hout; subst q'; cbn; eauto.
  - unfold ListDeployment. fold ns. destruct p as [dep tr so rs].
    cbn [trace] in Hl.
    cbv beta iota zeta delta
      [mbind M_bind mret M_ret record_call print fmt_Printf apps_Deployments_List
       deployment trace stdout resp].
    rewrite Hl. repeat split.
Qed.

(** The create handler in any state: it panics before any call, or it
    sends namespace-create and deployment-create for the namespace of the
    request and then follows the answer to the second. *)
Lemma CreateDeployment_any cs req p :
  (exists v, fst (CreateDeployment cs req p) = Panic v
             /\ trace (snd (CreateDeployment cs req p)) = trace p
             /\ resp (snd (CreateDeployment cs req p)) = resp p)
  \/ (exists n d,
        trace (snd (CreateDeployment cs req p))
        = (trace p ++ [NamespacesCreate (namespace_named n); DeploymentsCreate n d])%list
        /\ match fst (CreateDeployment cs req p) with
           | Return _ =>
               exists s, resp (snd (CreateDeployment cs req p)) = Write s (resp p)
           | Panic _ => resp (snd (CreateDeployment cs req p)) = resp p
           end).
Proof.
  destruct (fst (ReadEntity req (Some DeploymentInfo_zero))) as [info|] eqn:He.
  2:{ left. rewrite (CreateDeployment_nil cs req p He). eauto. }
  destruct (deployment p) as [d|] eqn:Hd.
  2:{ left. destruct p as [dep tr so rs]. cbn in Hd. subst dep.
      unfold CreateDeployment. fold DeploymentInfo_zero. rewrite He.
      run_monad. eauto. }
  destruct (appsv1.Selector (appsv1.Spec d)) as [sel|] eqn:Hs.
  2:{ left. destruct p as [dep tr so rs]. cbn in Hd. subst dep.
      destruct d as [meta [reps sl tmpl]]. cbn in Hs. subst sl.
      unfold CreateDeployment. fold DeploymentInfo_zero. rewrite He.
      run_monad. eauto. }
  destruct (containers_of d) as [|c rest] eqn:Hc.
  { left. destruct p as [dep tr so rs]. cbn in Hd. subst dep.
    destruct d as [meta [reps sl [tmeta [cs0]]]]. cbn in Hs, Hc. subst sl cs0.
    unfold CreateDeployment. fold DeploymentInfo_zero. rewrite He.
    run_monad. eauto. }
  right. rewrite (CreateDeployment_run cs req p info d sel c rest He Hd Hs Hc).
  cbv zeta. exists (Namespace info), (fill_template info sel c rest d).
  destruct (Deployments_Create cs _ _ _); cbn [fst snd trace resp];
    rewrite <- app_assoc; split; eauto.
Qed.

(** X16. Each handler sends only its own calls, in any state and on any
    store: the list handler exactly one list call, the delete handler
    exactly one delete call with foreground propagation, both for the
    parameters of the request; the create handler nothing at all (when it
    panics first) or a namespace-create followed by a deployment-create in
    that namespace. *)
Theorem calls_by_handler cs p req :
  let ns := PathParameter req "namespace-name" in
  let name := PathParameter req "deployment-name" in
  trace (snd (serve cs GET_list req p)) = (trace p ++ [DeploymentsList ns])%list
  /\ trace (snd (serve cs DELETE_delete req p))
     = (trace p ++ [DeploymentsDelete ns name
                      {| metav1.PropagationPolicy :=
                           Some metav1.DeletePropagationForeground |}])%list
  /\ (trace (snd (serve cs POST_create req p)) = trace p
      \/ exists n d,
           trace (snd (serve cs POST_create req p))
           = (trace p ++ [NamespacesCreate (namespace_named n);
                          DeploymentsCreate n d])%list).
Proof.
  intros ns name. unfold serve. cbn [handler]. split; [|split].
  - match goal with |- context [ListDeployment cs req ?q] =>
      destruct (ListDeployment_any cs req q) as [Ht _] end.
    exact Ht.
  - rewrite DeleteDeployment_run. cbv zeta. fold ns name.
    destruct (Deployments_Delete cs _ _ _ _); reflexivity.
  - match goal with |- context [CreateDeployment cs req ?q] =>
      destruct (CreateDeployment_any cs req q)
        as [(v & _ & Ht & _)|(n & d & Ht & _)] end.
    + left. exact Ht.
    + right. exists n, d. exact Ht.
Qed.

(** X17. Only the create handler writes the global template: serving a list,
    update or delete request leaves it as it was, in any state. *)
Theorem only_create_writes_template cs r req p :
  r <> POST_create ->
  deployment (snd (serve cs r req p)) = deployment p.
Proof.
  intros Hr. unfold serve.
  destruct r; cbn [handler]; [| congruence | |].
  - match goal with |- context [ListDeployment cs req ?q] =>
      apply (frames_ListDeployment cs req q) end.
  - match goal with |- context [UpdateDeployment cs req ?q] =>
      apply (frames_UpdateDeployment cs req q) end.
  - match goal with |- context [DeleteDeployment cs req ?q] =>
      apply (frames_DeleteDeployment cs req q) end.
Qed.

Lemma only_create_writes_template_witness :
  let cs := conflicting_store 2 demo_deployment in
  let req := request demo_path EntityNull in
  deployment (snd (serve cs PATCH_update req started)) = deployment started.
Proof.
  intros cs req.
  apply (only_create_writes_template cs PATCH_update req started).
  discriminate.
Defined.

(** X18. Response discipline, in any state and on any store: a handler that
    panics has written nothing to the response; one that returns has
    written status 200, or, for the delete handler only, status 500. *)
Theorem response_discipline cs r req p :
  match fst (serve cs r req p) with
  | Panic _ => resp (snd (serve cs r req p)) = Response_zero
  | Return _ =>
      statusCode (resp (snd (serve cs r req p))) = Some 200%Z
      \/ (r = DELETE_delete
          /\ statusCode (resp (snd (serve cs r req p))) = Some 500%Z)
  end.
Proof.
  unfold serve. destruct r; cbn [handler].
  - match goal with |- context [ListDeployment cs req ?q] =>
      destruct (ListDeployment_any cs req q) as (_ & _ & Hr);
      destruct (ListDeployment cs req q) as [[a|v] q'] end; cbn [fst snd] in *.
    + destruct Hr as [s ->]. left. reflexivity.
    + exact Hr.
  - match goal with |- context [CreateDeployment cs req ?q] =>
      destruct (CreateDeployment_any cs req q)
        as [(v & Ho & _ & Hr)|(n & d & _ & Hr)];
      destruct (CreateDeployment cs req q) as [[a|v'] q'] end;
      cbn [fst snd] in *; try discriminate; try exact Hr.
    destruct Hr as [s ->]. left. reflexivity.
  - rewrite UpdateDeployment_unfold. cbv zeta.
    match goal with |- context [retry.attempts ?s None ?c ?q] =>
      destruct (attempts_general cs (PathParameter req "namespace-name")
                  (PathParameter req "deployment-name") s None q)
        as (l & Hs & _);
      destruct (retry.attempts s None c q) as [[[e|]|v] q'] end;
      cbn [fst snd] in *; subst q'; [reflexivity | left; reflexivity | reflexivity].
  - rewrite DeleteDeployment_run. cbv zeta.
    destruct (Deployments_Delete cs _ _ _ _); cbn; [right | left]; auto.
Qed.

(** ** Routes and the parameters handlers read *)

(** X19. Each handler depends on its request only through the path
    parameters its route binds and, for the route of method POST, through
    the body: requests that agree on these are served alike. *)
Theorem handlers_read_bound_parameters cs e req req' p :
  In e (Routes CreateWebService) ->
  (forall k, In k (bound_names (RoutePath e)) ->
             pathParameters req' !! k = pathParameters req !! k) ->
  (RouteMethod e = POST -> entity req' = entity req) ->
  serve cs (To e) req' p = serve cs (To e) req p.
Proof.
  intros He Hk Hbody. unfold serve.
  assert (Hh : handler cs (To e) req' = handler cs (To e) req);
    [|rewrite Hh; reflexivity].
  cbn in He. destruct He as [<-|[<-|[<-|[<-|[]]]]]; cbn in Hk, Hbody |- *.
  - unfold ListDeployment, PathParameter.
    rewrite (Hk "namespace-name") by auto. reflexivity.
  - unfold CreateDeployment, ReadEntity. rewrite (Hbody eq_refl). reflexivity.
  - unfold UpdateDeployment, PathParameter.
    rewrite (Hk "namespace-name"), (Hk "deployment-name") by auto. reflexivity.
  - unfold DeleteDeployment, PathParameter.
    rewrite (Hk "namespace-name"), (Hk "deployment-name") by auto. reflexivity.
Qed.

Lemma handlers_read_bound_parameters_witness :
  let cs := conflicting_store 1 demo_deployment in
  let e := {| RouteMethod := DELETE;
              RoutePath := [Bound "deployment-name"; Literal "namespace";
                            Bound "namespace-name"];
              To := DELETE_delete |} in
  let req := request demo_path EntityNull in
  let req' := request (("dry-run", "true") :: demo_path)
                (EntityObject {| Image := "nginx:1.12"; Namespace := "other" |}) in
  serve cs (To e) req' started = serve cs (To e) req started.
Proof.
  intros cs e req req'.
  apply (handlers_read_bound_parameters cs e req req' started).
  - cbn. auto.
  - intros k [<-|[<-|[]]]; reflexivity.
  - discriminate.
Defined.

(** ** Start-up *)

(** X21. In the cluster the command line, the home directory and the
    kubeconfig files play no part: two environments with the same
    in-cluster configuration and the same answer of client creation to it
    start alike, whatever else differs (a command line the flag package
    would reject included). *)
Theorem in_cluster_start_ignores_the_rest (Config : Type)
  (env env' : Environment Config) (c : Config) :
  InClusterConfig Config env = Ok c ->
  InClusterConfig Config env' = Ok c ->
  NewForConfig Config env' c = NewForConfig Config env c ->
  main Config env' = main Config env.
Proof.
  intros H H' Hn. unfold main, CreateClient. rewrite H, H', Hn. reflexivity.
Qed.

Lemma in_cluster_start_ignores_the_rest_witness :
  let cs := conflicting_store 0 demo_deployment in
  let env :=
    {| InClusterConfig := Ok tt; HomeDir := "/root";
       Join := λ _, "/root/.kube/config"; CommandLine := Some None;
       BuildConfigFromFlags := λ _ _, Ok tt; NewForConfig := λ _, Ok cs |} in
  let env' :=
    {| InClusterConfig := Ok tt; HomeDir := "";
       Join := λ _, ""; CommandLine := None;
       BuildConfigFromFlags := λ _ _, Err (errorString "no such file");
       NewForConfig := λ _, Ok cs |} in
  main unit env' = main unit env.
Proof.
  intros cs env env'.
  apply (in_cluster_start_ignores_the_rest unit env env' tt); reflexivity.
Defined.

(** X22. Outside the cluster, the process serves only if the command line is
    accepted, the kubeconfig file resolves and the client is created from
    it; the file is the value of [-kubeconfig] when given, otherwise
    [.kube/config] under the home directory, otherwise (no home
    directory) the empty path.  Serving starts from the state
    [CreateDeploymentStruct] builds. *)
Theorem kubeconfig_resolution (Config : Type) (env : Environment Config)
  (e : error) (cs : Clientset) (p : Process) :
  InClusterConfig Config env = Err e ->
  main Config env = Up (cs, p) ->
  exists given config,
    CommandLine Config env = Some given
    /\ BuildConfigFromFlags Config env ""
         match given with
         | Some path => path
         | None =>
             if String.eqb (HomeDir Config env) "" then ""
             else Join Config env [HomeDir Config env; ".kube"; "config"]
         end = Ok config
    /\ NewForConfig Config env config = Ok cs
    /\ p = started.
Proof.
  intros Hin Hmain. unfold main, CreateClient, ReadKubeConfig,
    BuildConfigFromKubeConfig in Hmain.
  rewrite Hin in Hmain.
  destruct (CommandLine Config env) as [given|]; [|discriminate].
  exists given.
  assert (Hpath :
    default (if negb (String.eqb (HomeDir Config env) "")
             then Join Config env [HomeDir Config env; ".kube"; "config"]
             else "") given
    = match given with
      | Some path => path
      | None =>
          if String.eqb (HomeDir Config env) "" then ""
          else Join Config env [HomeDir Config env; ".kube"; "config"]
      end).
  { destruct given; [reflexivity|]. cbn.
    destruct (String.eqb (HomeDir Config env) ""); reflexivity. }
  rewrite Hpath in Hmain.
  destruct (BuildConfigFromFlags Config env "" _) as [config|]; [|discriminate].
  exists config.
  destruct (NewForConfig Config env config) as [cs'|]; [|discriminate].
  injection Hmain as -> <-. repeat split.
Qed.

Lemma kubeconfig_resolution_witness :
  let cs := conflicting_store 0 demo_deployment in
  let env :=
    {| InClusterConfig := Err (errorString "not in cluster");
       HomeDir := "/root";
       Join := λ parts, "/root/.kube/config";
       CommandLine := Some None;
       BuildConfigFromFlags := λ _ path,
         if String.eqb path "/root/.kube/config" then Ok tt
         else Err (errorString "no such file");
       NewForConfig := λ _, Ok cs |} in
  exists given config,
    CommandLine unit env = Some given
    /\ BuildConfigFromFlags unit env ""
         match given with
         | Some path => path
         | None =>
             if String.eqb (HomeDir unit env) "" then ""
             else Join unit env [HomeDir unit env; ".kube"; "config"]
         end = Ok config
    /\ NewForConfig unit env config = Ok cs
    /\ started = started.
Proof.
  intros cs env.
  apply (kubeconfig_resolution unit env (errorString "not in cluster") cs started);
    reflexivity.
Defined.

(** ** The delete path on any store *)

(** X20. The delete handler never panics, in any state and on any store; the
    status it writes is 200 exactly when the store's delete succeeded and
    500 exactly when it failed, and the body always ends with the success
    text, which on failure follows the error text. *)
Theorem delete_always_returns cs p req :
  let ns := PathParameter req "namespace-name" in
  let name := PathParameter req "deployment-name" in
  let answer :=
    Deployments_Delete cs (trace p) ns name
      {| metav1.PropagationPolicy := Some metav1.DeletePropagationForeground |} in
  let response := resp (snd (serve cs DELETE_delete req p)) in
  fst (serve cs DELETE_delete req p) = Return tt
  /\ (statusCode response = Some 200%Z <-> answer = None)
  /\ (statusCode response = Some 500%Z <-> exists err, answer = Some err)
  /\ body response
     = match answer with Some err => Error err | None => "" end
       ++ "Deleted deployment.".
Proof.
  intros ns name answer response. subst response. unfold serve. cbn [handler].
  rewrite DeleteDeployment_run. cbv zeta. fold ns name. cbn [trace]. fold answer.
  destruct answer as [err|]; cbn; repeat split; try discriminate; eauto.
  intros [err [=]].
Qed.

(** * Overlapping create requests *)

Lemma bind_same {A B} (m : M A) (f g : A -> M B) p :
  (forall a q, f a q = g a q) -> (m ≫= f) p = (m ≫= g) p.
Proof.
  intros H. unfold mbind, M_bind. destruct (m p) as [[a|v] q]; [apply H | reflexivity].
Qed.

Lemma bind_ret_unit (m : M unit) p : (m ≫= λ _, mret tt) p = m p.
Proof. unfold mbind, M_bind. destruct (m p) as [[[]|v] q]; reflexivity. Qed.

Lemma bind_assoc_at {A B C} (m : M A) (f : A -> M B) (g : B -> M C) p :
  ((m ≫= f) ≫= g) p = (m ≫= λ a, f a ≫= g) p.
Proof. unfold mbind, M_bind. destruct (m p) as [[a|v] q]; reflexivity. Qed.

Lemma bind_ret_l {A B} (a : A) (k : A -> M B) q :
  ((mret a : M A) ≫= k) q = k a q.
Proof. reflexivity. Qed.

(** Cutting the create handler into statements changes nothing: run one
    after the other they are the handler. *)
Lemma run_statements_create cs req p :
  run_statements (create_thread cs req) p = CreateDeployment cs req p.
Proof.
  unfold create_thread, CreateDeployment.
  destruct (fst (ReadEntity req (Some {| Image := ""; Namespace := "" |})))
    as [info|].
  - cbn [run_statements create_statements deref].
    apply bind_same. intros _ q.
    rewrite bind_ret_l.
    do 5 (apply bind_same; intros _ ?q).
    rewrite bind_assoc_at. apply bind_same. intros _ q'.
    rewrite bind_ret_l.
    apply bind_ret_unit.
  - cbn [run_statements deref]. apply bind_same. intros _ q.
    apply bind_ret_unit.
Qed.

Lemma with_resp_back p r : with_resp (resp p) (with_resp r p) = p.
Proof. destruct p; reflexivity. Qed.

Lemma run_finished n : forall t b p,
  finished t <> None -> run (repeat true n) t b p = (t, b, p).
Proof.
  induction n as [|n IH]; intros t b p Hf; [reflexivity|].
  cbn [repeat run]. unfold step.
  destruct (finished t) as [o|] eqn:Ho; [|congruence].
  apply IH. rewrite Ho. discriminate.
Qed.

(** A thread that is not interrupted runs its statements as
    [run_statements] does. *)
Lemma run_alone l : forall n t b p,
  l <> [] -> length l <= n -> pending t = l -> finished t = None ->
  run (repeat true n) t b p
  = ({| pending := [];
        response := resp (snd (run_statements l (with_resp (response t) p)));
        finished := Some (fst (run_statements l (with_resp (response t) p))) |},
     b,
     with_resp (resp p) (snd (run_statements l (with_resp (response t) p)))).
Proof.
  induction l as [|m l IH]; intros n t b p Hne Hlen Hp Hf; [congruence|].
  destruct n as [|n]; [cbn in Hlen; lia|].
  cbn [repeat run run_statements]. unfold step. rewrite Hf, Hp.
  fold (with_resp (response t) p). unfold mbind at 1 2 3, M_bind at 1 2 3.
  destruct (m (with_resp (response t) p)) as [[[]|v] q] eqn:Hm.
  - destruct l as [|m' l'].
    + rewrite run_finished by discriminate. reflexivity.
    + rewrite (IH n _ b _); [|discriminate|cbn in *; lia|reflexivity|reflexivity].
      cbn [response]. fold (with_resp (resp p) q).
      rewrite with_resp_back. destruct (run_statements (m' :: l') q) as [o q'].
      reflexivity.
  - rewrite run_finished by discriminate. reflexivity.
Qed.

(** Without overlap the thread model is the handler: a create request
    whose statements all run before anything else leaves the state and
    the response that serving it leaves. *)
Lemma create_thread_alone cs req b p :
  run (repeat true 8) (spawn (create_thread cs req)) b p
  = ({| pending := [];
        response := resp (snd (serve cs POST_create req p));
        finished := Some (fst (serve cs POST_create req p)) |},
     b,
     with_resp (resp p) (snd (serve cs POST_create req p))).
Proof.
  rewrite (run_alone (create_thread cs req) 8 _ b p);
    [|discriminate| |reflexivity|reflexivity].
  - cbn [spawn response]. rewrite run_statements_create. reflexivity.
  - unfold create_thread.
    destruct (fst (ReadEntity req _)); cbn; lia.
Qed.



Example create_requests_in_turn :
  let '(_, _, p) :=
    run schedule_in_turn
      (spawn (create_thread accepting_store request_a))
      (spawn (create_thread accepting_store request_b)) started in
  trace p
  = [NamespacesCreate (namespace_named "a");
     DeploymentsCreate "a" (created_deployment "nginx:1.12" "a");
     NamespacesCreate (namespace_named "b");
     DeploymentsCreate "b" (created_deployment "redis:7" "b")].
Proof. vm_compute. reflexivity. Qed.

(** * A body that cannot be parsed *)





(** * The cycles of an update request *)

Lemma attempts_Cycles cs ns name steps : forall last p,
  exists l,
    snd (retry.attempts steps last (update_cycle cs ns name) p) = after_calls p l
    /\ Cycles cs ns name (trace p) l
    /\ count_gets l <= steps
    /\ (0 < steps -> exists l', l = DeploymentsGet ns name :: l').
Proof.
  induction steps as [|steps IH]; intros last p.
  - exists []. cbn. rewrite after_calls_nil.
    repeat split; [constructor | lia | lia].
  - cbn [retry.attempts]. unfold mbind, M_bind. rewrite update_cycle_cases.
    destruct (Deployments_Get cs (trace p) ns name) as [d|getErr] eqn:Hg.
    2:{ exists [DeploymentsGet ns name]. cbn.
        repeat split; [|lia|eauto].
        apply Cycles_fetch_failed. intros d c rest Hd. congruence. }
    destruct (containers_of d) as [|c rest] eqn:Hc.
    { exists [DeploymentsGet ns name]. cbn.
      repeat split; [|lia|eauto].
      apply Cycles_fetch_failed. intros d' c rest Hd. congruence. }
    set (d' := mutated d c rest).
    set (new := [DeploymentsGet ns name; DeploymentsUpdate ns d']).
    assert (Hone : forall l,
              Cycles cs ns name (trace p ++ new) l ->
              Cycles cs ns name (trace p) (new ++ l)).
    { intros l Hl. apply (Cycles_cycle cs ns name (trace p) d c rest l Hg Hc Hl). }
    destruct (Deployments_Update cs _ ns d') as [r|e]; cbn [err_of].
    + exists new. cbn [snd].
      repeat split; [|cbn; lia|eauto].
      rewrite <- (app_nil_r new). apply Hone. constructor.
    + destruct (IsConflict e).
      * destruct (IH (Some e) (after_calls p new)) as (l & Hs & Hcy & Hle & _).
        exists (new ++ l)%list. rewrite Hs, after_calls_app.
        repeat split; [|rewrite count_gets_app; cbn in *; lia|eauto].
        apply Hone. exact Hcy.
      * exists new. cbn [snd].
        repeat split; [|cbn; lia|eauto].
        rewrite <- (app_nil_r new). apply Hone. constructor.
Qed.

(** In a sequence of cycles, each get that returns a deployment with a
    container is followed at once by the update of its mutation. *)
Lemma Cycles_prefix cs ns name h l :
  Cycles cs ns name h l ->
  forall l1 l2 d c rest,
    l = (l1 ++ DeploymentsGet ns name :: l2)%list ->
    Deployments_Get cs (h ++ l1) ns name = Ok d ->
    containers_of d = c :: rest ->
    exists l3, l2 = DeploymentsUpdate ns (mutated d c rest) :: l3.
Proof.
  induction 1 as [h|h Hfail|h d0 c0 rest0 l Hg Hc Hl IH];
    intros l1 l2 d c rest Heq Hget Hcs.
  - destruct l1; discriminate.
  - destruct l1 as [|x l1]; [|destruct l1; discriminate].
    rewrite app_nil_r in Hget. destruct (Hfail d c rest Hget Hcs).
  - destruct l1 as [|x l1].
    + rewrite app_nil_r in Hget. cbn in Heq. injection Heq as <-.
      assert (d = d0) by congruence. subst d0.
      assert (c :: rest = c0 :: rest0) as [= <- <-] by congruence.
      eauto.
    + cbn in Heq. injection Heq as <- Heq.
      destruct l1 as [|y l1]; [discriminate|].
      cbn in Heq. injection Heq as <- Heq.
      apply (IH l1 l2 d c rest Heq); [|exact Hcs].
      rewrite <- app_assoc. exact Hget.
Qed.

(** A sequence of cycles is gets and updates in alternation, possibly
    ended by a get alone. *)
Lemma Cycles_shape cs ns name h l :
  Cycles cs ns name h l ->
  exists ds final,
    l = (flat_map (fun d => [DeploymentsGet ns name; DeploymentsUpdate ns d]) ds
         ++ final)%list
    /\ (final = [] \/ final = [DeploymentsGet ns name])
    /\ count_gets l = length ds + length final
    /\ Forall (fun d => replicas_of d = Some 1%Z
                        /\ apiv1.Image <$> head (containers_of d) = Some "nginx:1.13")
         ds.
Proof.
  induction 1 as [h|h Hfail|h d0 c0 rest0 l Hg Hc Hl IH].
  - exists [], []. repeat split; auto.
  - exists [], [DeploymentsGet ns name]. repeat split; auto.
  - destruct IH as (ds & final & -> & Hfinal & Hcount & Hall).
    exists (mutated d0 c0 rest0 :: ds), final.
    split; [reflexivity|]. split; [exact Hfinal|]. split.
    + match goal with |- count_gets ?x = _ =>
        change x with ([DeploymentsGet ns name;
                        DeploymentsUpdate ns (mutated d0 c0 rest0)]
                       ++ (flat_map (fun d => [DeploymentsGet ns name;
                                               DeploymentsUpdate ns d]) ds
                           ++ final))%list
      end.
      rewrite count_gets_app, Hcount. reflexivity.
    + constructor; [|exact Hall].
      apply (mutated_fixed ns d0 c0 rest0).
Qed.

Lemma serve_update_calls cs p req :
  let ns := PathParameter req "namespace-name" in
  let name := PathParameter req "deployment-name" in
  exists l,
    trace (snd (serve cs PATCH_update req p))
    = (trace p ++ DeploymentsGet ns name :: l)%list
    /\ Cycles cs ns name (trace p) (DeploymentsGet ns name :: l)
    /\ count_gets (DeploymentsGet ns name :: l) <= 5.
Proof.
  intros ns name. unfold serve. cbn [handler].
  rewrite UpdateDeployment_unfold. cbv zeta. fold ns name.
  match goal with |- context [retry.attempts ?s None _ ?q] =>
    destruct (attempts_Cycles cs ns name s None q) as (l & Hs & Hcy & Hle & Hfirst);
    destruct (retry.attempts s None (update_cycle cs ns name) q)
      as [[[e|]|v] q']
  end; cbn [snd retry.Steps retry.DefaultRetry trace] in *; subst q';
    (destruct Hfirst as [l' ->]; [lia|]); exists l'; repeat split; assumption.
Qed.

(** C7. Fixed update mutation: every update request, on any store and
    in any state, starts by fetching the deployment; whenever a fetch
    returns a deployment (with a container), the next call submits that
    deployment with its replica count set to 1 and its first container's
    image set to ["nginx:1.13"], everything else as fetched; no update is
    submitted with another desired state; and two requests that differ
    only in their bodies are served alike: the body has no influence. *)
Theorem update_mutation_fixed cs p req :
  let ns := PathParameter req "namespace-name" in
  let name := PathParameter req "deployment-name" in
  (exists l,
     trace (snd (serve cs PATCH_update req p))
     = (trace p ++ DeploymentsGet ns name :: l)%list
     /\ (forall l1 l2 d c rest,
           DeploymentsGet ns name :: l = (l1 ++ DeploymentsGet ns name :: l2)%list ->
           Deployments_Get cs (trace p ++ l1) ns name = Ok d ->
           containers_of d = c :: rest ->
           exists d' l3,
             l2 = DeploymentsUpdate ns d' :: l3
             /\ replicas_of d' = Some 1%Z
             /\ containers_of d'
                = {| apiv1.ContainerName := apiv1.ContainerName c;
                     apiv1.Image := "nginx:1.13";
                     apiv1.Ports := apiv1.Ports c |} :: rest
             /\ appsv1.ObjectMeta d' = appsv1.ObjectMeta d
             /\ appsv1.Selector (appsv1.Spec d') = appsv1.Selector (appsv1.Spec d)
             /\ apiv1.ObjectMeta (appsv1.Template (appsv1.Spec d'))
                = apiv1.ObjectMeta (appsv1.Template (appsv1.Spec d)))
     /\ (forall n d, In (DeploymentsUpdate n d) l ->
           n = ns
           /\ replicas_of d = Some 1%Z
           /\ apiv1.Image <$> head (containers_of d) = Some "nginx:1.13"))
  /\ (forall body,
        serve cs PATCH_update
          {| pathParameters := pathParameters req; entity := body |} p
        = serve cs PATCH_update req p).
Proof.
  intros ns name. split.
  - destruct (serve_update_calls cs p req) as (l & Ht & Hcy & _).
    fold ns name in Ht, Hcy. exists l. split; [exact Ht|]. split.
    + intros l1 l2 d c rest Heq Hget Hc.
      destruct (Cycles_prefix cs ns name _ _ Hcy l1 l2 d c rest Heq Hget Hc)
        as [l3 ->].
      exists (mutated d c rest), l3.
      destruct d as [meta [reps sel [tmeta [cs0]]]]. cbn in Hc. subst cs0.
      repeat split.
    + intros n d Hin.
      destruct (Cycles_shape cs ns name _ _ Hcy) as (ds & final & Heq & Hfinal & _ & Hall).
      assert (Hin' : In (DeploymentsUpdate n d) (DeploymentsGet ns name :: l))
        by (right; exact Hin).
      rewrite Heq in Hin'. apply in_app_or in Hin'. destruct Hin' as [Hin'|Hin'].
      * apply in_flat_map in Hin'. destruct Hin' as (d0 & Hd0 & [H0|[H0|[]]]);
          [discriminate|]. injection H0 as <- <-.
        rewrite List.Forall_forall in Hall. destruct (Hall _ Hd0). auto.
      * destruct Hfinal as [->| ->]; [destruct Hin'|].
        destruct Hin' as [H0|[]]. discriminate.
  - intros body. unfold serve. cbn [handler].
    rewrite (UpdateDeployment_path cs req
               {| pathParameters := pathParameters req; entity := body |});
      reflexivity.
Qed.

(** X9. Bounded work on any store: the calls of an update request are
    gets and updates in strict alternation, get first (each update
    directly after its get), possibly ended by a get alone; between one
    and five gets in all, for the namespace and name of the request,
    every update carrying replicas 1 and image nginx:1.13; nothing else is
    sent. *)
Theorem update_work_is_bounded cs p req :
  let ns := PathParameter req "namespace-name" in
  let name := PathParameter req "deployment-name" in
  exists ds final,
    trace (snd (serve cs PATCH_update req p))
    = (trace p
       ++ flat_map (fun d => [DeploymentsGet ns name; DeploymentsUpdate ns d]) ds
       ++ final)%list
    /\ (final = [] \/ final = [DeploymentsGet ns name])
    /\ 1 <= length ds + length final <= 5
    /\ Forall (fun d => replicas_of d = Some 1%Z
                        /\ apiv1.Image <$> head (containers_of d) = Some "nginx:1.13")
         ds.
Proof.
  intros ns name.
  destruct (serve_update_calls cs p req) as (l & Ht & Hcy & Hle).
  fold ns name in Ht, Hcy, Hle.
  destruct (Cycles_shape cs ns name _ _ Hcy) as (ds & final & Heq & Hfinal & Hcount & Hall).
  exists ds, final. rewrite Ht, Heq.
  repeat split; try assumption.
  - assert (1 <= count_gets (DeploymentsGet ns name :: l)).
    { change (DeploymentsGet ns name :: l) with ([DeploymentsGet ns name] ++ l)%list.
      rewrite count_gets_app. cbn. lia. }
    lia.
  - lia.
Qed.
